(** * Smart Task Scheduler: a shallow embedding of [main.py]

    The module keeps one process-wide dictionary [tasks] from task id to
    [Task] object and exposes four tools over it: [add_task], [get_tasks],
    [complete_task] and [get_task_recommendations].

    Modelling choices.
    - A Python [str] is a [string] holding its UTF-8 bytes.  Equality of
      byte strings is equality of the texts, and the byte-wise lexicographic
      order coincides with Python's code-point order.
    - The dictionary is an association list in insertion order, which is
      the iteration order of a Python [dict].
    - [datetime.now()] is the only input from the outside world; every tool
      that reads the clock takes the reading, already rendered by
      [isoformat()], as an explicit argument.
    - A Python exception is the [Raises] case of [outcome]. *)

From Stdlib Require Import List String Ascii Bool Arith PeanoNat NArith Lia.
From Stdlib Require Import Sorted Permutation Finite DecimalString DecimalNat.
Import ListNotations.
Local Open Scope list_scope.
Local Open Scope string_scope.

Set Implicit Arguments.

(** ** Exceptions *)

Inductive exn : Type :=
| KeyError (key : string).

Inductive outcome (A : Type) : Type :=
| Returns (a : A)
| Raises (e : exn).

Arguments Returns {A} a.
Arguments Raises {A} e.

Definition bind {A B : Type} (m : outcome A) (k : A -> outcome B) : outcome B :=
  match m with
  | Returns a => k a
  | Raises e => Raises e
  end.

Notation "x <- m ;; k" := (bind m (fun x => k))
  (at level 61, m at next level, right associativity).

Definition omap {A B : Type} (f : A -> B) (m : outcome A) : outcome B :=
  x <- m ;; Returns (f x).

(** Evaluate [f] on every element from left to right; the first exception
    aborts the traversal. *)
Fixpoint mapM {A B : Type} (f : A -> outcome B) (l : list A) : outcome (list B) :=
  match l with
  | [] => Returns []
  | x :: l' => y <- f x ;; ys <- mapM f l' ;; Returns (y :: ys)
  end.

(** ** Python dictionaries with string keys *)

Definition Dict (V : Type) : Type := list (string * V).

Fixpoint dict_get {V : Type} (k : string) (d : Dict V) : option V :=
  match d with
  | [] => None
  | (k', v) :: d' => if k' =? k then Some v else dict_get k d'
  end.

(** [k in d] *)
Definition dict_contains {V : Type} (k : string) (d : Dict V) : bool :=
  match dict_get k d with
  | Some _ => true
  | None => false
  end.

(** [d[k]] *)
Definition dict_getitem {V : Type} (k : string) (d : Dict V) : outcome V :=
  match dict_get k d with
  | Some v => Returns v
  | None => Raises (KeyError k)
  end.

(** [d[k] = v]: an existing key keeps its position, a new key goes last. *)
Fixpoint dict_set {V : Type} (k : string) (v : V) (d : Dict V) : Dict V :=
  match d with
  | [] => [(k, v)]
  | (k', v') :: d' => if k' =? k then (k', v) :: d' else (k', v') :: dict_set k v d'
  end.

Definition dict_keys {V : Type} (d : Dict V) : list string := map fst d.
Definition dict_values {V : Type} (d : Dict V) : list V := map snd d.

(** A Python dictionary never holds a key twice. *)
Definition dict_wf {V : Type} (d : Dict V) : Prop := NoDup (dict_keys d).

(** ** [str(n)] for a natural number *)

Definition str_of_nat (n : nat) : string :=
  NilEmpty.string_of_uint (Nat.to_uint n).

(** ** The [Task] model *)

Record Task : Type := mkTask {
  id : string;
  title : string;
  description : string;
  due_date : string;
  priority : string;
  status : string;
  created_at : string;
  completed_at : option string
}.

(** [task.status = s] on a Task object. *)
Definition set_status (s : string) (t : Task) : Task :=
  mkTask (id t) (title t) (description t) (due_date t) (priority t)
         s (created_at t) (completed_at t).

(** [task.completed_at = c] on a Task object. *)
Definition set_completed_at (c : option string) (t : Task) : Task :=
  mkTask (id t) (title t) (description t) (due_date t) (priority t)
         (status t) (created_at t) c.

(** ** [add_task] *)

Definition add_task (title description due_date priority now : string)
           (tasks : Dict Task) : Dict Task * Task :=
  let task_id := "task_" ++ str_of_nat (List.length tasks + 1) in
  let task := mkTask task_id title description due_date priority
                     "pending" now None in
  (dict_set task_id task tasks, task).

(** ** [get_tasks] *)

Definition get_tasks (status_arg : string) (tasks : Dict Task) : list Task :=
  if status_arg =? "all" then dict_values tasks
  else filter (fun task => status task =? status_arg) (dict_values tasks).

(** ** [complete_task] *)

Inductive CompleteResult : Type :=
| TaskDict (t : Task)
| ErrorDict (error : string).

(** The Task object is shared between the dictionary and the local
    variable, so the two assignments show in the store: the entry under
    [task_id] is the mutated object. *)
Definition complete_task (task_id now : string) (tasks : Dict Task)
  : Dict Task * outcome CompleteResult :=
  if negb (dict_contains task_id tasks) then
    (tasks, Returns (ErrorDict "Task not found"))
  else
    match dict_getitem task_id tasks with
    | Raises e => (tasks, Raises e)
    | Returns task =>
        let task := set_status "completed" task in
        let task := set_completed_at (Some now) task in
        (dict_set task_id task tasks, Returns (TaskDict task))
    end.

(** ** [sorted(l, key=...)]

    Python decorates every element with its key (calling [key] once per
    element, in list order), sorts the decorated list with [<] on the keys
    only, and guarantees stability.  A stable sort has exactly one possible
    result (see [stable_sort_unique] and [sorted_pending_unique] below), so
    the insertion sort used here returns the list Python's own sort
    returns. *)

Section Sorted.
Variables (A K : Type).
Variable lt : K -> K -> bool.

(** Place [x], which preceded every element of [l] in the input, in front
    of the first element that is not strictly smaller. *)
Fixpoint insert (x : K * A) (l : list (K * A)) : list (K * A) :=
  match l with
  | [] => [x]
  | y :: l' => if lt (fst y) (fst x) then y :: insert x l' else x :: y :: l'
  end.

(** The order of decorated elements: [y] is not strictly below [x]. *)
Definition dec_le (x y : K * A) : Prop := lt (fst y) (fst x) = false.

Fixpoint isort (l : list (K * A)) : list (K * A) :=
  match l with
  | [] => []
  | x :: l' => insert x (isort l')
  end.

Definition sorted (key : A -> outcome K) (l : list A) : outcome (list A) :=
  decorated <- mapM (fun x => k <- key x ;; Returns (k, x)) l ;;
  Returns (map snd (isort decorated)).
End Sorted.

(** ** [get_task_recommendations] *)

(** Comparison of the key tuples [(rank, due_date)]: the first components
    that differ decide. *)
Definition key_lt (k1 k2 : nat * string) : bool :=
  if negb (fst k1 =? fst k2)%nat then (fst k1 <? fst k2)%nat
  else String.ltb (snd k1) (snd k2).

Definition rank_table : Dict nat := [("high", 0); ("medium", 1); ("low", 2)].

(** The lambda passed as [key]. *)
Definition sort_key (x : Task) : outcome (nat * string) :=
  r <- dict_getitem (priority x) rank_table ;;
  Returns (r, due_date x).

Record Recommendation : Type := mkRecommendation {
  r_task_id : string;
  r_title : string;
  r_priority : string;
  r_due_date : string;
  r_reason : string
}.

Record Recommendations : Type := mkRecommendations {
  date : string;
  recommended_tasks : list Recommendation
}.

Definition reason (task : Task) : string :=
  if priority task =? "high" then "High priority task due on " ++ due_date task
  else if priority task =? "medium" then "Medium priority task due on " ++ due_date task
  else "Low priority task due on " ++ due_date task.

Definition recommend (task : Task) : Recommendation :=
  mkRecommendation (id task) (title task) (priority task) (due_date task)
                   (reason task).

Definition pending_tasks (tasks : Dict Task) : list Task :=
  filter (fun task => status task =? "pending") (dict_values tasks).

(** [today] is [datetime.now().date().isoformat()]. *)
Definition get_task_recommendations (date_arg today : string) (tasks : Dict Task)
  : outcome Recommendations :=
  let date := if date_arg =? "today" then today else date_arg in
  sorted_tasks <- sorted key_lt sort_key (pending_tasks tasks) ;;
  Returns (mkRecommendations date (map recommend (firstn 5 sorted_tasks))).

(** ** The server as a state machine *)

Inductive call : Type :=
| AddTask (title description due_date priority now : string)
| GetTasks (status_arg : string)
| CompleteTask (task_id now : string)
| GetTaskRecommendations (date_arg today : string).

Inductive response : Type :=
| RAdded (t : Task)
| RTasks (l : list Task)
| RCompleted (r : CompleteResult)
| RRecommendations (r : Recommendations).

Definition exec (c : call) (tasks : Dict Task) : Dict Task * outcome response :=
  match c with
  | AddTask t d due p now =>
      let (tasks', task) := add_task t d due p now tasks in
      (tasks', Returns (RAdded task))
  | GetTasks s => (tasks, Returns (RTasks (get_tasks s tasks)))
  | CompleteTask i now =>
      let (tasks', r) := complete_task i now tasks in
      (tasks', omap RCompleted r)
  | GetTaskRecommendations d today =>
      (tasks, omap RRecommendations (get_task_recommendations d today tasks))
  end.

(** Run a sequence of calls, collecting what each call answered. *)
Fixpoint run (cs : list call) (tasks : Dict Task)
  : Dict Task * list (outcome response) :=
  match cs with
  | [] => (tasks, [])
  | c :: cs' =>
      let (tasks', r) := exec c tasks in
      let (tasks'', rs) := run cs' tasks' in
      (tasks'', r :: rs)
  end.

(** The module starts with [tasks = {}]. *)
Definition reachable (tasks : Dict Task) : Prop :=
  exists cs, fst (run cs []) = tasks.

(** The Task records handed out by the [add_task] calls of a run. *)
Fixpoint created (rs : list (outcome response)) : list Task :=
  match rs with
  | [] => []
  | Returns (RAdded t) :: rs' => t :: created rs'
  | _ :: rs' => created rs'
  end.

(** ** Vocabulary of the properties *)

(** The priorities the tool schema advertises. *)
Definition valid_priority (p : string) : bool := dict_contains p rank_table.

(** The ranking as the specification words it: high=0, medium=1, low=2. *)
Definition spec_rank (p : string) : option nat :=
  if p =? "high" then Some 0
  else if p =? "medium" then Some 1
  else if p =? "low" then Some 2
  else None.

(** [k1] may stand before [k2]: smaller rank, or equal rank and a due date
    that is not later in the lexicographic order of strings. *)
Definition key_le (k1 k2 : nat * string) : Prop :=
  fst k1 < fst k2 \/ (fst k1 = fst k2 /\ String.leb (snd k1) (snd k2) = true).

Definition precedes (p1 d1 p2 d2 : string) : Prop :=
  exists r1 r2, spec_rank p1 = Some r1 /\ spec_rank p2 = Some r2 /\
                key_le (r1, d1) (r2, d2).

Definition task_precedes (t1 t2 : Task) : Prop :=
  precedes (priority t1) (due_date t1) (priority t2) (due_date t2).

Definition rec_precedes (e1 e2 : Recommendation) : Prop :=
  precedes (r_priority e1) (r_due_date e1) (r_priority e2) (r_due_date e2).

(** The rank the key lambda reads off [rank_table] for a valid priority. *)
Definition rank_of (p : string) : nat :=
  match dict_get p rank_table with
  | Some r => r
  | None => 0
  end.

Definition task_key (t : Task) : nat * string := (rank_of (priority t), due_date t).

(** Two tasks tie on both sort keys. *)
Definition same_key (t1 t2 : Task) : bool :=
  (priority t1 =? priority t2) && (due_date t1 =? due_date t2).

(** The id [add_task] forms from a record count. *)
Definition task_id_of_count (n : nat) : string := "task_" ++ str_of_nat n.

(** The fields of a task fixed at creation. *)
Definition creation_view (t : Task)
  : string * string * string * string * string * string :=
  (id t, title t, description t, due_date t, priority t, created_at t).

(** What [complete_task] turns a task into. *)
Definition completed_version (now : string) (t : Task) : Task :=
  mkTask (id t) (title t) (description t) (due_date t) (priority t)
         "completed" (created_at t) (Some now).

(** [completed_at] is set exactly on completed tasks. *)
Definition completion_consistent (tasks : Dict Task) : Prop :=
  forall k t, In (k, t) tasks ->
    (completed_at t <> None <-> status t = "completed").

(** The invariant of the store: the n-th entry is keyed [task_n], carries
    its key as [id], and is pending without a completion stamp or completed
    with one. *)
Record store_inv (tasks : Dict Task) : Prop := mkStoreInv {
  inv_keys : dict_keys tasks = map task_id_of_count (seq 1 (List.length tasks));
  inv_ids : forall k t, In (k, t) tasks -> id t = k;
  inv_status : forall k t, In (k, t) tasks ->
      (status t = "pending" /\ completed_at t = None) \/
      (status t = "completed" /\ exists c, completed_at t = Some c)
}.

(** [c] is a [complete_task] call on the id [k]. *)
Definition completes (k : string) (c : call) : bool :=
  match c with
  | CompleteTask i _ => i =? k
  | _ => false
  end.

(** Selects the tasks whose id is not [k]. *)
Definition other_than (k : string) (t : Task) : bool := negb (id t =? k).

(** A lower-case ASCII letter turned into its capital. *)
Definition upper (c : ascii) : ascii :=
  let n := nat_of_ascii c in
  if ((97 <=? n) && (n <=? 122))%nat then ascii_of_nat (n - 32) else c.

(** The tier as the reason strings print it: first letter in upper case. *)
Definition capitalize (s : string) : string :=
  match s with
  | EmptyString => EmptyString
  | String c s' => String (upper c) s'
  end.

(** The pattern of the three reason strings. *)
Definition reason_pattern (priority due_date : string) : string :=
  capitalize priority ++ " priority task due on " ++ due_date.

(** Seven pending tasks: more than the recommendation keeps, with two
    that tie on both sort keys (A and G). *)
Definition seven_tasks : Dict Task :=
  fst (run [AddTask "A" "" "2024-01-05" "high" "t1";
            AddTask "B" "" "2024-01-01" "low" "t2";
            AddTask "C" "" "2024-01-02" "high" "t3";
            AddTask "D" "" "2024-01-03" "medium" "t4";
            AddTask "E" "" "2024-01-01" "medium" "t5";
            AddTask "F" "" "2024-01-09" "low" "t6";
            AddTask "G" "" "2024-01-05" "high" "t7"] []).

(** The five tasks recommended on [seven_tasks], in the order returned. *)
Definition seven_tasks_top5 : list Task :=
  [mkTask "task_3" "C" "" "2024-01-02" "high" "pending" "t3" None;
   mkTask "task_1" "A" "" "2024-01-05" "high" "pending" "t1" None;
   mkTask "task_7" "G" "" "2024-01-05" "high" "pending" "t7" None;
   mkTask "task_5" "E" "" "2024-01-01" "medium" "pending" "t5" None;
   mkTask "task_4" "D" "" "2024-01-03" "medium" "pending" "t4" None].

(** ** Smoke tests: the examples of the specification *)

Definition three_tasks : Dict Task :=
  fst (run [AddTask "A" "" "2024-01-05" "high" "t1";
            AddTask "B" "" "2024-01-01" "low" "t2";
            AddTask "C" "" "2024-01-02" "high" "t3"] []).

(** One pending task whose priority is not among the advertised ones. *)
Definition urgent_store : Dict Task :=
  fst (run [AddTask "Call" "" "2024-01-05" "urgent" "t1"] []).

(** A valid task followed by a malformed one. *)
Definition mixed_store : Dict Task :=
  fst (run [AddTask "A" "" "2024-01-05" "high" "t1";
            AddTask "B" "" "2024-01-06" "Medium" "t2"] []).

(** Task B of [three_tasks] completed at time t4. *)
Definition three_tasks_done : Dict Task :=
  fst (run [CompleteTask "task_2" "t4"] three_tasks).

Example recommend_three :
  omap (fun r => map r_title (recommended_tasks r))
       (get_task_recommendations "today" "2024-01-01" three_tasks)
  = Returns ["C"; "A"; "B"].
Proof. reflexivity. Qed.

Example complete_unknown :
  complete_task "task_99" "now" [] = ([], Returns (ErrorDict "Task not found")).
Proof. reflexivity. Qed.

Example recommend_empty :
  get_task_recommendations "today" "2024-01-01" []
  = Returns (mkRecommendations "2024-01-01" []).
Proof. reflexivity. Qed.

(** ** Strings *)

Lemma ascii_compare_trans (a b c : ascii) :
  Ascii.compare a b = Lt -> Ascii.compare b c = Lt -> Ascii.compare a c = Lt.
Proof.
  unfold Ascii.compare. rewrite !N.compare_lt_iff. apply N.lt_trans.
Qed.

Lemma string_compare_trans (s1 : string) : forall s2 s3,
  String.compare s1 s2 = Lt -> String.compare s2 s3 = Lt ->
  String.compare s1 s3 = Lt.
Proof.
  induction s1 as [|a s1 IH]; intros [|b s2] [|c s3]; simpl; try congruence.
  destruct (Ascii.compare a b) eqn:Hab; try discriminate;
    destruct (Ascii.compare b c) eqn:Hbc; try discriminate; intros H12 H23.
  - apply Ascii.compare_eq_iff in Hab, Hbc. subst.
    assert (Hcc : Ascii.compare c c = Eq) by (apply N.compare_refl).
    rewrite Hcc. eauto.
  - apply Ascii.compare_eq_iff in Hab. subst. now rewrite Hbc.
  - apply Ascii.compare_eq_iff in Hbc. subst. now rewrite Hab.
  - now rewrite (ascii_compare_trans _ _ _ Hab Hbc).
Qed.

Lemma string_compare_refl (s : string) : String.compare s s = Eq.
Proof.
  induction s as [|a s IH]; simpl; trivial.
  assert (Haa : Ascii.compare a a = Eq) by (apply N.compare_refl).
  now rewrite Haa.
Qed.

Lemma string_leb_ltb (s1 s2 : string) : String.leb s1 s2 = negb (String.ltb s2 s1).
Proof.
  unfold String.leb, String.ltb. rewrite (String.compare_antisym s2 s1).
  now destruct (String.compare s1 s2).
Qed.

Lemma string_leb_refl (s : string) : String.leb s s = true.
Proof. unfold String.leb. now rewrite string_compare_refl. Qed.

Lemma string_leb_trans (s1 s2 s3 : string) :
  String.leb s1 s2 = true -> String.leb s2 s3 = true -> String.leb s1 s3 = true.
Proof.
  unfold String.leb.
  destruct (String.compare s1 s2) eqn:H12; try discriminate;
    destruct (String.compare s2 s3) eqn:H23; try discriminate; intros _ _.
  - apply String.compare_eq_iff in H12. subst. now rewrite H23.
  - apply String.compare_eq_iff in H12. subst. now rewrite H23.
  - apply String.compare_eq_iff in H23. subst. now rewrite H12.
  - now rewrite (string_compare_trans _ _ _ H12 H23).
Qed.

Lemma str_of_nat_inj (n m : nat) : str_of_nat n = str_of_nat m -> n = m.
Proof.
  unfold str_of_nat. intros H.
  apply DecimalNat.Unsigned.to_uint_inj.
  assert (Hs : Some (Nat.to_uint n) = Some (Nat.to_uint m))
    by (rewrite <- !NilEmpty.usu; now rewrite H).
  now injection Hs.
Qed.

Lemma task_id_of_count_inj (n m : nat) :
  task_id_of_count n = task_id_of_count m -> n = m.
Proof.
  unfold task_id_of_count. simpl. intros H. injection H. apply str_of_nat_inj.
Qed.

(** ** The error monad *)

Lemma mapM_total {A B : Type} (f : A -> outcome B) (g : A -> B) (l : list A) :
  (forall x, In x l -> f x = Returns (g x)) -> mapM f l = Returns (map g l).
Proof.
  induction l as [|x l IH]; simpl; intros Hf; trivial.
  rewrite (Hf x) by now left. simpl.
  rewrite IH by (intros; apply Hf; now right). reflexivity.
Qed.

Lemma mapM_raises {A B : Type} (f : A -> outcome B) (l1 l2 : list A) x e g :
  (forall y, In y l1 -> f y = Returns (g y)) -> f x = Raises e ->
  mapM f (l1 ++ x :: l2)%list = Raises e.
Proof.
  intros Hl1 Hx. induction l1 as [|y l1 IH]; simpl.
  - now rewrite Hx.
  - rewrite (Hl1 y) by now left. simpl.
    rewrite IH by (intros; apply Hl1; now right). reflexivity.
Qed.

Lemma mapM_returns_inv {A B : Type} (f : A -> outcome B) (l : list A) ys :
  mapM f l = Returns ys -> forall x, In x l -> exists y, f x = Returns y.
Proof.
  revert ys. induction l as [|a l IH]; simpl; intros ys H x Hx; [easy|].
  destruct (f a) as [b|e] eqn:Hfa; simpl in H; [|discriminate].
  destruct (mapM f l) as [bs|e] eqn:Hm; simpl in H; [|discriminate].
  destruct Hx as [->|Hx]; eauto.
Qed.

(** ** Stable sorting *)

Lemma StronglySorted_map_inv {A B : Type} (R : B -> B -> Prop) (g : A -> B) l :
  StronglySorted R (map g l) -> StronglySorted (fun x y => R (g x) (g y)) l.
Proof.
  induction l as [|a l IH]; simpl; intros H; constructor;
    inversion H as [|? ? Hs Hf]; subst; auto.
  rewrite Forall_forall in *. intros x Hx. apply Hf. now apply in_map.
Qed.


Section SortFacts.
Variables (A K : Type) (lt : K -> K -> bool).
Hypothesis lt_asym : forall a b, lt a b = true -> lt b a = false.
Hypothesis nlt_trans :
  forall a b c, lt b a = false -> lt c b = false -> lt c a = false.

Lemma insert_perm (x : K * A) l : Permutation (insert lt x l) (x :: l).
Proof.
  induction l as [|y l IH]; simpl; [reflexivity|].
  destruct (lt (fst y) (fst x)); [|reflexivity].
  rewrite IH. apply perm_swap.
Qed.

Lemma isort_perm (l : list (K * A)) : Permutation (isort lt l) l.
Proof.
  induction l as [|x l IH]; simpl; [constructor|].
  rewrite insert_perm. now constructor.
Qed.

Lemma insert_sorted (x : K * A) l :
  StronglySorted (dec_le lt) l -> StronglySorted (dec_le lt) (insert lt x l).
Proof.
  induction l as [|y l IH]; simpl; intros Hs.
  - repeat constructor.
  - inversion Hs as [|? ? Hl Hy]; subst.
    destruct (lt (fst y) (fst x)) eqn:Hyx.
    + constructor; [now apply IH|].
      apply (Permutation_Forall (Permutation_sym (insert_perm x l))).
      constructor; [|assumption]. now apply lt_asym.
    + constructor; [assumption|]. constructor; [exact Hyx|].
      rewrite Forall_forall in *. intros z Hz.
      apply (nlt_trans Hyx). now apply Hy.
Qed.

Lemma isort_sorted (l : list (K * A)) : StronglySorted (dec_le lt) (isort lt l).
Proof.
  induction l as [|x l IH]; simpl; [constructor|now apply insert_sorted].
Qed.

(** Inserting [x] never moves it behind an element that [p] selects
    together with [x], as long as such elements are not smaller. *)
Lemma insert_filter (p : K * A -> bool) x l :
  (forall y, In y l -> p x = true -> p y = true -> lt (fst y) (fst x) = false) ->
  filter p (insert lt x l) = filter p (x :: l).
Proof.
  induction l as [|y l IH]; intros Hp; [reflexivity|].
  cbn [insert]. destruct (lt (fst y) (fst x)) eqn:Hyx; [|reflexivity].
  cbn [filter]. rewrite IH by (intros; apply Hp; auto; now right).
  cbn [filter]. destruct (p x) eqn:Hx, (p y) eqn:Hy; trivial.
  rewrite Hp in Hyx by (auto; now left). discriminate.
Qed.

Lemma isort_filter (p : K * A -> bool) l :
  (forall x y, In x l -> In y l -> p x = true -> p y = true ->
               lt (fst y) (fst x) = false) ->
  filter p (isort lt l) = filter p l.
Proof.
  induction l as [|x l IH]; intros Hp; [reflexivity|].
  cbn [isort]. rewrite insert_filter.
  - cbn [filter]. rewrite IH; [reflexivity|].
    intros; apply Hp; auto; now right.
  - intros y Hy. apply Hp; [now left|right].
    apply (Permutation_in _ (isort_perm l) Hy).
Qed.

(** What [sorted] returns when the key function succeeds on the list. *)
Lemma sorted_spec (key : A -> outcome K) (f : A -> K) (l : list A) :
  (forall x, In x l -> key x = Returns (f x)) ->
  exists out,
    sorted lt key l = Returns out /\
    Permutation out l /\
    StronglySorted (fun x y => lt (f y) (f x) = false) out /\
    (forall q : A -> bool,
        (forall x y, In x l -> In y l -> q x = true -> q y = true ->
                     lt (f y) (f x) = false) ->
        filter q out = filter q l).
Proof.
  intros Hkey. set (dec := fun x : A => (f x, x)).
  exists (map snd (isort lt (map dec l))).
  assert (Hsnd : forall l0, map snd (map dec l0) = l0)
    by (intros; rewrite map_map; apply map_id).
  assert (Hdec : map dec (map snd (isort lt (map dec l))) = isort lt (map dec l)).
  { rewrite map_map. rewrite <- (map_id (isort lt (map dec l))) at 2.
    apply map_ext_in. intros p Hp.
    apply (Permutation_in _ (isort_perm _)) in Hp.
    apply in_map_iff in Hp. destruct Hp as [x [<- _]]. reflexivity. }
  repeat split.
  - unfold sorted.
    rewrite (mapM_total _ dec); [reflexivity|].
    intros x Hx. now rewrite Hkey.
  - rewrite <- (Hsnd l) at 2. apply Permutation_map, isort_perm.
  - apply (@StronglySorted_map_inv _ _ (dec_le lt) dec). rewrite Hdec. apply isort_sorted.
  - intros q Hq.
    assert (Hfm : forall l0 : list (K * A),
               filter q (map snd l0) = map snd (filter (fun p => q (snd p)) l0)).
    { induction l0 as [|p l0 IH]; simpl; trivial.
      destruct (q (snd p)); simpl; now rewrite IH. }
    rewrite Hfm, isort_filter, <- Hfm, Hsnd; [reflexivity|].
    intros x y Hx Hy. apply in_map_iff in Hx, Hy.
    destruct Hx as [x' [<- Hx]], Hy as [y' [<- Hy]]. simpl. now apply Hq.
Qed.
End SortFacts.

(** A list that is sorted and keeps every class of tied elements in a
    given order is determined: stable sorting has a single result. *)
Lemma stable_sort_unique {A : Type} (le : A -> A -> Prop) (tie : A -> A -> bool) :
  (forall a, tie a a = true) ->
  (forall a b, le a b -> le b a -> tie a b = true) ->
  forall l1 l2,
    StronglySorted le l1 -> StronglySorted le l2 ->
    (forall a, filter (tie a) l1 = filter (tie a) l2) ->
    l1 = l2.
Proof.
  intros Hrefl Hanti. induction l1 as [|a l1 IH]; intros l2 H1 H2 Hf.
  - destruct l2 as [|b l2]; trivial.
    specialize (Hf b). simpl in Hf. rewrite Hrefl in Hf. discriminate.
  - destruct l2 as [|b l2].
    { specialize (Hf a). simpl in Hf. rewrite Hrefl in Hf. discriminate. }
    inversion H1 as [|? ? Hs1 Ha]; inversion H2 as [|? ? Hs2 Hb]; subst.
    rewrite Forall_forall in Ha, Hb.
    assert (Hba : In b (a :: l1)).
    { apply (proj1 (filter_In (tie b) b (a :: l1))).
      rewrite Hf. apply filter_In. split; [now left|apply Hrefl]. }
    assert (Hab : In a (b :: l2)).
    { apply (proj1 (filter_In (tie a) a (b :: l2))).
      rewrite <- Hf. apply filter_In. split; [now left|apply Hrefl]. }
    assert (Htie : tie a b = true).
    { destruct Hba as [->|Hba]; [apply Hrefl|].
      destruct Hab as [->|Hab]; [apply Hrefl|].
      apply Hanti; auto. }
    assert (a = b).
    { specialize (Hf a). simpl in Hf. rewrite Hrefl, Htie in Hf. congruence. }
    subst b. f_equal. apply IH; trivial.
    intros c. specialize (Hf c). simpl in Hf.
    destruct (tie c a); congruence.
Qed.

(** ** The sort key *)

Lemma spec_rank_table (p : string) : spec_rank p = dict_get p rank_table.
Proof.
  unfold spec_rank, rank_table. cbn [dict_get].
  rewrite (String.eqb_sym "high"), (String.eqb_sym "medium"), (String.eqb_sym "low").
  reflexivity.
Qed.

Lemma valid_priority_cases (p : string) :
  valid_priority p = true <-> p = "high" \/ p = "medium" \/ p = "low".
Proof.
  unfold valid_priority, dict_contains. rewrite <- spec_rank_table. unfold spec_rank.
  destruct (String.eqb_spec p "high"); [tauto|].
  destruct (String.eqb_spec p "medium"); [tauto|].
  destruct (String.eqb_spec p "low"); [tauto|].
  split; [discriminate|tauto].
Qed.

Lemma valid_spec_rank (p : string) :
  valid_priority p = true -> spec_rank p = Some (rank_of p).
Proof.
  rewrite spec_rank_table. unfold valid_priority, dict_contains, rank_of.
  now destruct (dict_get p rank_table).
Qed.

Lemma rank_of_inj (p q : string) :
  valid_priority p = true -> valid_priority q = true ->
  rank_of p = rank_of q -> p = q.
Proof.
  rewrite !valid_priority_cases.
  intros [ -> | [ -> | -> ] ] [ -> | [ -> | -> ] ]; cbv; congruence.
Qed.

Lemma sort_key_valid (t : Task) :
  valid_priority (priority t) = true -> sort_key t = Returns (task_key t).
Proof.
  unfold valid_priority, dict_contains, sort_key, dict_getitem, task_key, rank_of.
  now destruct (dict_get (priority t) rank_table).
Qed.

Lemma sort_key_invalid (t : Task) :
  valid_priority (priority t) = false ->
  sort_key t = Raises (KeyError (priority t)).
Proof.
  unfold valid_priority, dict_contains, sort_key, dict_getitem.
  now destruct (dict_get (priority t) rank_table).
Qed.

Lemma string_ltb_leb (s1 s2 : string) :
  String.ltb s1 s2 = true -> String.leb s1 s2 = true.
Proof.
  unfold String.ltb, String.leb. now destruct (String.compare s1 s2).
Qed.

Lemma key_lt_false_iff (k1 k2 : nat * string) :
  key_lt k2 k1 = false <-> key_le k1 k2.
Proof.
  destruct k1 as [r1 d1], k2 as [r2 d2]. unfold key_lt, key_le. simpl.
  destruct (Nat.eqb_spec r2 r1) as [->|Hne]; simpl.
  - rewrite string_leb_ltb. destruct (String.ltb d2 d1); simpl.
    + split; [discriminate|]. intros [H|[_ H]]; [lia|discriminate].
    + split; auto.
  - destruct (Nat.ltb_spec r2 r1).
    + split; [discriminate|]. intros [H'|[H' _]]; lia.
    + split; [left; lia|trivial].
Qed.

Lemma key_lt_asym (a b : nat * string) : key_lt a b = true -> key_lt b a = false.
Proof.
  intros H. apply key_lt_false_iff. revert H.
  destruct a as [r1 d1], b as [r2 d2]. unfold key_lt, key_le. simpl.
  destruct (Nat.eqb_spec r1 r2) as [->|Hne]; simpl.
  - intros H. right. split; trivial. now apply string_ltb_leb.
  - intros H. apply Nat.ltb_lt in H. now left.
Qed.

Lemma key_lt_irrefl (a : nat * string) : key_lt a a = false.
Proof.
  destruct (key_lt a a) eqn:H; trivial. now rewrite (key_lt_asym _ _ H) in H.
Qed.

Lemma key_le_trans (a b c : nat * string) : key_le a b -> key_le b c -> key_le a c.
Proof.
  unfold key_le. intros [H1|[H1 L1]] [H2|[H2 L2]].
  - left; lia.
  - left; lia.
  - left; lia.
  - right. split; [lia|]. eapply string_leb_trans; eauto.
Qed.

Lemma key_lt_nlt_trans (a b c : nat * string) :
  key_lt b a = false -> key_lt c b = false -> key_lt c a = false.
Proof. rewrite !key_lt_false_iff. apply key_le_trans. Qed.

Lemma key_le_antisym (a b : nat * string) : key_le a b -> key_le b a -> a = b.
Proof.
  destruct a as [r1 d1], b as [r2 d2]. unfold key_le. simpl.
  intros [H1|[H1 L1]] [H2|[H2 L2]]; try lia.
  subst. f_equal. now apply String.leb_antisym.
Qed.

Lemma StronglySorted_impl_in {A : Type} (R R' : A -> A -> Prop) (l : list A) :
  (forall x y, In x l -> In y l -> R x y -> R' x y) ->
  StronglySorted R l -> StronglySorted R' l.
Proof.
  induction l as [|a l IH]; intros Himp Hs; constructor;
    inversion Hs as [|? ? Hl Ha]; subst.
  - apply IH; trivial. intros; apply Himp; auto; now right.
  - rewrite Forall_forall in *. intros x Hx.
    apply Himp; [now left|now right|auto].
Qed.

Lemma task_precedes_of_keys (x y : Task) :
  valid_priority (priority x) = true -> valid_priority (priority y) = true ->
  key_lt (task_key y) (task_key x) = false -> task_precedes x y.
Proof.
  intros Hx Hy H. exists (rank_of (priority x)), (rank_of (priority y)).
  repeat split; try now apply valid_spec_rank.
  now apply key_lt_false_iff.
Qed.

Lemma task_precedes_antisym (x y : Task) :
  task_precedes x y -> task_precedes y x -> same_key x y = true.
Proof.
  intros (r1 & r2 & Hr1 & Hr2 & H12) (r2' & r1' & Hr2' & Hr1' & H21).
  rewrite Hr2 in Hr2'. rewrite Hr1 in Hr1'.
  injection Hr2' as <-. injection Hr1' as <-.
  pose proof (key_le_antisym H12 H21) as E. injection E as Er Ed.
  unfold same_key. rewrite Ed, String.eqb_refl, andb_true_r.
  apply String.eqb_eq. revert Hr1 Hr2. subst r2. unfold spec_rank.
  destruct (String.eqb_spec (priority x) "high");
    destruct (String.eqb_spec (priority x) "medium");
    destruct (String.eqb_spec (priority x) "low");
    destruct (String.eqb_spec (priority y) "high");
    destruct (String.eqb_spec (priority y) "medium");
    destruct (String.eqb_spec (priority y) "low"); congruence.
Qed.

Lemma same_key_refl (t : Task) : same_key t t = true.
Proof. unfold same_key. now rewrite !String.eqb_refl. Qed.

(** The sorting step of [get_task_recommendations] on pending tasks with
    valid priorities. *)
Lemma sorted_pending_spec (l : list Task) :
  (forall t, In t l -> valid_priority (priority t) = true) ->
  exists sorted_tasks,
    sorted key_lt sort_key l = Returns sorted_tasks /\
    Permutation sorted_tasks l /\
    StronglySorted task_precedes sorted_tasks /\
    (forall t0, filter (same_key t0) sorted_tasks = filter (same_key t0) l).
Proof.
  intros Hvalid.
  destruct (@sorted_spec Task _ key_lt key_lt_asym key_lt_nlt_trans
                         sort_key task_key l)
    as (out & Hout & Hperm & Hsorted & Hstable).
  { intros x Hx. apply sort_key_valid. now apply Hvalid. }
  exists out. repeat split; trivial.
  - apply StronglySorted_impl_in with (2 := Hsorted).
    intros x y Hx Hy. apply task_precedes_of_keys; apply Hvalid;
      eapply Permutation_in; eauto.
  - intros t0. apply Hstable. intros x y _ _ Hx Hy.
    unfold same_key in Hx, Hy. apply andb_true_iff in Hx, Hy.
    destruct Hx as [Px Dx], Hy as [Py Dy].
    apply String.eqb_eq in Px, Dx, Py, Dy. unfold task_key.
    rewrite <- Px, <- Py, <- Dx, <- Dy. apply key_lt_irrefl.
Qed.

(** The order and the tie classes leave one list only: any stable sort of
    the pending tasks, Python's included, returns what [sorted] returns. *)
Lemma sorted_pending_unique (out1 out2 : list Task) :
  StronglySorted task_precedes out1 -> StronglySorted task_precedes out2 ->
  (forall t0, filter (same_key t0) out1 = filter (same_key t0) out2) ->
  out1 = out2.
Proof.
  apply stable_sort_unique; [exact same_key_refl|exact task_precedes_antisym].
Qed.

Lemma sorted_returns_valid (l sorted_tasks : list Task) :
  sorted key_lt sort_key l = Returns sorted_tasks ->
  forall t, In t l -> valid_priority (priority t) = true.
Proof.
  unfold sorted. intros H t Ht.
  destruct (mapM _ l) as [dl|e] eqn:Hm; [|discriminate].
  destruct (mapM_returns_inv _ _ Hm t Ht) as [y Hy].
  destruct (valid_priority (priority t)) eqn:Hv; trivial.
  rewrite (sort_key_invalid _ Hv) in Hy. discriminate.
Qed.

(** ** Dictionaries *)

Section DictFacts.
Variable V : Type.
Implicit Types (d : Dict V) (k : string) (v : V).

Lemma dict_get_None_iff k d : dict_get k d = None <-> ~ In k (dict_keys d).
Proof.
  induction d as [|[k' v'] d IH]; simpl; [tauto|].
  destruct (String.eqb_spec k' k) as [->|Hne].
  - split; [discriminate|]. intros H. exfalso. apply H. now left.
  - rewrite IH. tauto.
Qed.

Lemma dict_get_In k v d : dict_get k d = Some v -> In (k, v) d.
Proof.
  induction d as [|[k' v'] d IH]; simpl; [discriminate|].
  destruct (String.eqb_spec k' k) as [->|Hne]; [|auto].
  intros [= ->]. now left.
Qed.

Lemma dict_get_unique k v d : dict_wf d -> In (k, v) d -> dict_get k d = Some v.
Proof.
  unfold dict_wf. induction d as [|[k' v'] d IH]; simpl; [easy|].
  intros Hnd [[= -> ->]|Hin].
  - now rewrite String.eqb_refl.
  - inversion Hnd as [|? ? Hk' Hd]; subst.
    destruct (String.eqb_spec k' k) as [->|Hne]; [|auto].
    exfalso. apply Hk'. change k with (fst (k, v)). now apply in_map.
Qed.

Lemma dict_set_fresh k v d : dict_get k d = None -> dict_set k v d = (d ++ [(k, v)])%list.
Proof.
  induction d as [|[k' v'] d IH]; simpl; trivial.
  destruct (k' =? k); [discriminate|]. intros H. now rewrite IH.
Qed.

Lemma dict_set_keys k v v0 d :
  dict_get k d = Some v0 -> dict_keys (dict_set k v d) = dict_keys d.
Proof.
  induction d as [|[k' v'] d IH]; simpl; [discriminate|].
  destruct (k' =? k); simpl; trivial. intros H. now rewrite IH.
Qed.

Lemma dict_get_set k k' v d :
  dict_get k' (dict_set k v d) = if k =? k' then Some v else dict_get k' d.
Proof.
  induction d as [|[k0 v0] d IH]; simpl.
  - now rewrite String.eqb_sym.
  - destruct (String.eqb_spec k0 k) as [->|Hne]; simpl.
    + now destruct (k =? k').
    + destruct (String.eqb_spec k0 k') as [->|Hne'].
      * destruct (String.eqb_spec k k'); congruence.
      * apply IH.
Qed.

Lemma dict_set_In k v k' v' d :
  In (k', v') (dict_set k v d) -> (k' = k /\ v' = v) \/ In (k', v') d.
Proof.
  induction d as [|[k0 v0] d IH]; simpl.
  - intros [[= -> ->]|[]]. now left.
  - destruct (String.eqb_spec k0 k) as [->|Hne]; simpl.
    + intros [[= -> ->]|H]; auto.
    + intros [H|H]; auto. destruct (IH H); auto.
Qed.

(** Overwriting the value of a present key with one that looks the same
    through [g] changes nothing that [g] shows. *)
Lemma dict_set_view {B : Type} (g : V -> B) k v v0 d :
  dict_get k d = Some v0 -> g v = g v0 ->
  map g (dict_values (dict_set k v d)) = map g (dict_values d).
Proof.
  intros Hget Hg. induction d as [|[k' v'] d IH]; simpl in *; [discriminate|].
  destruct (k' =? k); simpl.
  - injection Hget as ->. now rewrite Hg.
  - now rewrite IH.
Qed.

Lemma dict_set_length k v v0 d :
  dict_get k d = Some v0 -> List.length (dict_set k v d) = List.length d.
Proof.
  intros H. rewrite <- (length_map fst (dict_set k v d)), <- (length_map fst d).
  change (List.length (dict_keys (dict_set k v d)) = List.length (dict_keys d)).
  now rewrite (dict_set_keys _ _ _ H).
Qed.
End DictFacts.

(** ** The two branches of [complete_task] *)

Lemma complete_task_absent i now (tasks : Dict Task) :
  dict_get i tasks = None ->
  complete_task i now tasks = (tasks, Returns (ErrorDict "Task not found")).
Proof.
  intros H. unfold complete_task, dict_contains. now rewrite H.
Qed.

Lemma complete_task_present i now (tasks : Dict Task) t :
  dict_get i tasks = Some t ->
  complete_task i now tasks
  = (dict_set i (completed_version now t) tasks,
     Returns (TaskDict (completed_version now t))).
Proof.
  intros H. unfold complete_task, dict_contains, dict_getitem. now rewrite H.
Qed.

Lemma complete_task_never_raises i now (tasks : Dict Task) :
  exists r, snd (complete_task i now tasks) = Returns r.
Proof.
  destruct (dict_get i tasks) as [t|] eqn:Hget.
  - rewrite (complete_task_present _ _ _ Hget). simpl. eauto.
  - rewrite (complete_task_absent _ _ _ Hget). simpl. eauto.
Qed.

(** ** The store invariant *)

Lemma task_ids_NoDup (n : nat) : NoDup (map task_id_of_count (seq 1 n)).
Proof.
  apply Finite.Injective_map_NoDup; [|apply seq_NoDup].
  intros a b. apply task_id_of_count_inj.
Qed.

Lemma store_inv_wf (tasks : Dict Task) : store_inv tasks -> dict_wf tasks.
Proof. intros [Hk _ _]. unfold dict_wf. rewrite Hk. apply task_ids_NoDup. Qed.

Lemma store_inv_ids (tasks : Dict Task) :
  store_inv tasks -> map id (dict_values tasks) = dict_keys tasks.
Proof.
  intros [_ Hid _]. unfold dict_values, dict_keys. rewrite map_map.
  apply map_ext_in. intros [k t] Hin. simpl. now apply Hid.
Qed.

Lemma store_inv_fresh (tasks : Dict Task) :
  store_inv tasks ->
  dict_get (task_id_of_count (List.length tasks + 1)) tasks = None.
Proof.
  intros [Hk _ _]. apply dict_get_None_iff. rewrite Hk. intros Hin.
  apply in_map_iff in Hin. destruct Hin as [n [Hn Hin]].
  apply task_id_of_count_inj in Hn. apply in_seq in Hin. lia.
Qed.

Lemma store_inv_empty : store_inv [].
Proof. split; simpl; trivial; intros ? ? []. Qed.

Lemma add_task_appends t d due p now (tasks : Dict Task) :
  store_inv tasks ->
  fst (add_task t d due p now tasks)
  = (tasks ++ [(task_id_of_count (List.length tasks + 1),
                snd (add_task t d due p now tasks))])%list.
Proof.
  intros Hinv. unfold add_task. simpl fst. simpl snd.
  apply dict_set_fresh. now apply store_inv_fresh.
Qed.

Lemma add_task_inv t d due p now (tasks : Dict Task) :
  store_inv tasks -> store_inv (fst (add_task t d due p now tasks)).
Proof.
  intros Hinv. rewrite add_task_appends by trivial.
  destruct Hinv as [Hk Hid Hst]. split.
  - unfold dict_keys in *. rewrite map_app, length_app, Hk. simpl.
    rewrite seq_app, map_app. simpl. now rewrite Nat.add_1_r.
  - intros k t0 Hin. apply in_app_or in Hin.
    destruct Hin as [Hin|[[= <- <-]|[]]]; eauto.
  - intros k t0 Hin. apply in_app_or in Hin.
    destruct Hin as [Hin|[[= <- <-]|[]]]; eauto.
Qed.

Lemma complete_task_inv i now (tasks : Dict Task) :
  store_inv tasks -> store_inv (fst (complete_task i now tasks)).
Proof.
  intros Hinv.
  destruct (dict_get i tasks) as [t|] eqn:Hget;
    [rewrite (complete_task_present _ _ _ Hget)
    |now rewrite (complete_task_absent _ _ _ Hget)].
  simpl. destruct Hinv as [Hk Hid Hst]. split.
  - rewrite (dict_set_keys _ _ _ Hget), (dict_set_length _ _ _ Hget). exact Hk.
  - intros k t0 Hin. apply dict_set_In in Hin.
    destruct Hin as [[-> ->]|Hin]; eauto.
    simpl. apply Hid. now apply dict_get_In.
  - intros k t0 Hin. apply dict_set_In in Hin.
    destruct Hin as [[-> ->]|Hin]; eauto.
    right. simpl. eauto.
Qed.

Lemma exec_inv (c : call) (tasks : Dict Task) :
  store_inv tasks -> store_inv (fst (exec c tasks)).
Proof.
  intros Hinv. destruct c as [t d due p now|s|i now|dt today]; simpl; trivial.
  - now apply (add_task_inv t d due p now).
  - pose proof (complete_task_inv i now Hinv) as H.
    now destruct (complete_task i now tasks).
Qed.

Lemma run_inv (cs : list call) : forall tasks,
  store_inv tasks -> store_inv (fst (run cs tasks)).
Proof.
  induction cs as [|c cs IH]; intros tasks Hinv; simpl; trivial.
  pose proof (exec_inv c Hinv) as H1.
  destruct (exec c tasks) as [tasks' r]. simpl in H1.
  pose proof (IH _ H1) as H2.
  now destruct (run cs tasks') as [tasks'' rs].
Qed.

Lemma reachable_inv (tasks : Dict Task) : reachable tasks -> store_inv tasks.
Proof. intros [cs <-]. apply run_inv, store_inv_empty. Qed.

Lemma reachable_exec (c : call) (tasks : Dict Task) :
  reachable tasks -> reachable (fst (exec c tasks)).
Proof.
  intros [cs <-]. exists (cs ++ [c])%list.
  generalize (@nil (string * Task)). induction cs as [|c0 cs IH]; intros s; simpl.
  - now destruct (exec c s).
  - destruct (exec c0 s) as [s' r]. specialize (IH s').
    destruct (run (cs ++ [c]) s'), (run cs s'). exact IH.
Qed.

(** ** Runs *)

Lemma creation_view_id (l : list Task) :
  map id l = map (fun v => fst (fst (fst (fst (fst v))))) (map creation_view l).
Proof. rewrite map_map. reflexivity. Qed.

(** What a call adds to the store, seen through the immutable fields. *)
Lemma exec_creation_view (c : call) (tasks : Dict Task) :
  store_inv tasks ->
  map creation_view (dict_values (fst (exec c tasks)))
  = (map creation_view (dict_values tasks)
       ++ map creation_view (created [snd (exec c tasks)]))%list.
Proof.
  intros Hinv. destruct c as [t d due p now|s|i now|dt today].
  - change (fst (exec (AddTask t d due p now) tasks))
      with (fst (add_task t d due p now tasks)).
    rewrite add_task_appends by trivial.
    unfold dict_values. now rewrite !map_app.
  - simpl. now rewrite app_nil_r.
  - cbn [exec].
    destruct (dict_get i tasks) as [t|] eqn:Hget;
      [rewrite (complete_task_present _ _ _ Hget)
      |rewrite (complete_task_absent _ _ _ Hget)];
      simpl; rewrite app_nil_r; trivial.
    now apply dict_set_view with (v0 := t).
  - simpl. destruct (get_task_recommendations dt today tasks);
      simpl; now rewrite app_nil_r.
Qed.

Lemma created_cons (r : outcome response) (rs : list (outcome response)) :
  created (r :: rs) = (created [r] ++ created rs)%list.
Proof. destruct r as [[t|l|c|x]|e]; reflexivity. Qed.

Lemma run_creation_view (cs : list call) : forall tasks,
  store_inv tasks ->
  map creation_view (dict_values (fst (run cs tasks)))
  = (map creation_view (dict_values tasks)
       ++ map creation_view (created (snd (run cs tasks))))%list.
Proof.
  induction cs as [|c cs IH]; intros tasks Hinv.
  - simpl. now rewrite app_nil_r.
  - pose proof (exec_creation_view c Hinv) as Hc.
    pose proof (exec_inv c Hinv) as Hinv'.
    cbn [run]. destruct (exec c tasks) as [tasks' r]. cbn [fst snd] in Hc, Hinv'.
    specialize (IH _ Hinv').
    destruct (run cs tasks') as [tasks'' rs]. cbn [fst snd] in IH |- *.
    rewrite IH, Hc, (created_cons r rs), map_app, app_assoc. reflexivity.
Qed.

Lemma filter_none {A : Type} (f : A -> bool) (l : list A) :
  (forall x, In x l -> f x = false) -> filter f l = [].
Proof.
  induction l as [|a l IH]; intros H; simpl; trivial.
  rewrite (H a) by now left. apply IH. intros; apply H; now right.
Qed.

Lemma in_firstn_in {A : Type} (n : nat) : forall (l : list A) x,
  In x (firstn n l) -> In x l.
Proof.
  induction n as [|n IH]; intros [|a l] x; simpl; try easy.
  intros [->|H]; [now left|right; auto].
Qed.

Lemma pending_tasks_In (tasks : Dict Task) (t : Task) :
  In t (pending_tasks tasks) <->
  (exists k, In (k, t) tasks) /\ status t = "pending".
Proof.
  unfold pending_tasks, dict_values. rewrite filter_In, in_map_iff, String.eqb_eq.
  split; intros [H Hs]; split; trivial.
  - destruct H as [[k t'] [<- Hin]]. now exists k.
  - destruct H as [k Hin]. now exists (k, t).
Qed.

(** Whatever [get_task_recommendations] returns is built from a stable
    sort of the pending tasks. *)
Lemma recommendations_returned date_arg today (tasks : Dict Task) r :
  get_task_recommendations date_arg today tasks = Returns r ->
  exists sorted_tasks,
    sorted key_lt sort_key (pending_tasks tasks) = Returns sorted_tasks /\
    r = mkRecommendations (if date_arg =? "today" then today else date_arg)
                          (map recommend (firstn 5 sorted_tasks)).
Proof.
  unfold get_task_recommendations.
  destruct (sorted key_lt sort_key (pending_tasks tasks)) as [l|e]; simpl;
    [|discriminate].
  intros [= <-]. now exists l.
Qed.

Lemma exec_completion_consistent (c : call) (tasks : Dict Task) :
  completion_consistent tasks -> completion_consistent (fst (exec c tasks)).
Proof.
  intros Hc. destruct c as [t d due p now|s|i now|dt today]; simpl; trivial.
  - intros k t0 Hin. apply dict_set_In in Hin.
    destruct Hin as [[-> ->]|Hin]; [|eauto].
    simpl. split; [congruence|discriminate].
  - destruct (dict_get i tasks) as [t|] eqn:Hget;
      [rewrite (complete_task_present _ _ _ Hget)
      |now rewrite (complete_task_absent _ _ _ Hget)].
    simpl. intros k t0 Hin. apply dict_set_In in Hin.
    destruct Hin as [[-> ->]|Hin]; [|eauto].
    simpl. split; [reflexivity|discriminate].
Qed.

(** * The claims *)

(** ** Recommendations: size and order *)

(** On a store whose pending tasks all carry a priority among high,
    medium, low the call does return, and the result is built from the
    stable sort of the pending tasks. *)
Lemma recommendations_sorted_on_valid :
  forall (date_arg today : string) (tasks : Dict Task),
    (forall t, In t (pending_tasks tasks) -> valid_priority (priority t) = true) ->
    exists r sorted_tasks,
      get_task_recommendations date_arg today tasks = Returns r /\
      recommended_tasks r = map recommend (firstn 5 sorted_tasks) /\
      Permutation sorted_tasks (pending_tasks tasks) /\
      StronglySorted task_precedes sorted_tasks /\
      (forall t0, filter (same_key t0) sorted_tasks
                  = filter (same_key t0) (pending_tasks tasks)).
Proof.
  intros date_arg today tasks Hvalid.
  destruct (sorted_pending_spec _ Hvalid)
    as (sorted_tasks & Hsorted & Hperm & Hord & Hstable).
  exists (mkRecommendations (if date_arg =? "today" then today else date_arg)
                            (map recommend (firstn 5 sorted_tasks))).
  exists sorted_tasks. unfold get_task_recommendations. rewrite Hsorted.
  cbn [bind recommended_tasks]. repeat split; trivial.
Qed.



(** ** Recommendations: totality *)

(** C2, as stated, fails: [add_task] stores any priority string, and a
    pending task with one outside the rank table makes the sort key raise. *)
Lemma C2_malformed_priority_counterexample :
  reachable mixed_store /\
  get_task_recommendations "2024-01-01" "2024-01-01" mixed_store
  = Raises (KeyError "Medium").
Proof.
  split; [|reflexivity].
  now exists [AddTask "A" "" "2024-01-05" "high" "t1";
              AddTask "B" "" "2024-01-06" "Medium" "t2"].
Qed.

(** C2 (amended): [get_task_recommendations] returns a result exactly on
    the stores whose pending tasks all carry a priority among high, medium,
    low; the first pending task (in insertion order) with another priority
    makes it raise [KeyError] with that priority, whatever the completed
    tasks hold; the empty store gives an empty [recommended_tasks]. *)
Theorem C2_recommendations_total_on_valid :
  forall (date_arg today : string) (tasks : Dict Task),
    ((exists r, get_task_recommendations date_arg today tasks = Returns r) <->
     (forall t, In t (pending_tasks tasks) -> valid_priority (priority t) = true)) /\
    (forall l1 t l2,
        pending_tasks tasks = (l1 ++ t :: l2)%list ->
        (forall x, In x l1 -> valid_priority (priority x) = true) ->
        valid_priority (priority t) = false ->
        get_task_recommendations date_arg today tasks
        = Raises (KeyError (priority t))) /\
    get_task_recommendations date_arg today []
    = Returns (mkRecommendations (if date_arg =? "today" then today else date_arg) []).
Proof.
  intros date_arg today tasks. repeat split.
  - intros [r Hr]. destruct (recommendations_returned _ _ _ Hr) as (l & Hl & _).
    exact (sorted_returns_valid _ Hl).
  - intros Hvalid.
    destruct (sorted_pending_spec _ Hvalid) as (l & Hl & _).
    unfold get_task_recommendations. rewrite Hl. simpl. eauto.
  - intros l1 t l2 Hsplit Hl1 Ht.
    unfold get_task_recommendations, sorted. rewrite Hsplit.
    rewrite (@mapM_raises _ _ _ l1 l2 t (KeyError (priority t))
                          (fun x => (task_key x, x))); trivial.
    + intros y Hy. now rewrite (sort_key_valid _ (Hl1 _ Hy)).
    + now rewrite (sort_key_invalid _ Ht).
Qed.

Lemma C2_recommendations_total_on_valid_witness :
  (exists r, get_task_recommendations "today" "2024-01-01" three_tasks_done = Returns r) /\
  get_task_recommendations "today" "2024-01-01" mixed_store
  = Raises (KeyError "Medium").
Proof.
  split.
  - apply (proj1 (C2_recommendations_total_on_valid
                    "today" "2024-01-01" three_tasks_done)).
    intros t Ht. vm_compute in Ht. destruct Ht as [<-|[<-|[]]]; reflexivity.
  - apply (proj1 (proj2 (C2_recommendations_total_on_valid
                           "today" "2024-01-01" mixed_store))
             [snd (add_task "A" "" "2024-01-05" "high" "t1" [])]
             (snd (add_task "B" "" "2024-01-06" "Medium" "t2"
                            (fst (add_task "A" "" "2024-01-05" "high" "t1" []))))
             []).
    + reflexivity.
    + intros x Hx. vm_compute in Hx. destruct Hx as [<-|[]]. reflexivity.
    + reflexivity.
Defined.

(** ** Completing a task *)

(** C3: on a store that holds a pending task under [task_id],
    [complete_task] returns the record with [status] set to completed and
    [completed_at] set to the clock reading, every other field as it was;
    the store keeps its keys and every other entry; a second call on the
    same id is accepted again and stamps the new clock reading. *)
Theorem C3_complete_task_pending :
  forall (task_id now : string) (tasks : Dict Task) (t : Task),
    dict_get task_id tasks = Some t ->
    status t = "pending" ->
    let t' := completed_version now t in
    let tasks' := fst (complete_task task_id now tasks) in
    snd (complete_task task_id now tasks) = Returns (TaskDict t') /\
    dict_get task_id tasks' = Some t' /\
    status t' = "completed" /\
    completed_at t' = Some now /\
    creation_view t' = creation_view t /\
    dict_keys tasks' = dict_keys tasks /\
    (forall k, k <> task_id -> dict_get k tasks' = dict_get k tasks) /\
    (forall now2,
        snd (complete_task task_id now2 tasks')
        = Returns (TaskDict (completed_version now2 t)) /\
        dict_get task_id (fst (complete_task task_id now2 tasks'))
        = Some (completed_version now2 t) /\
        (now2 <> now -> fst (complete_task task_id now2 tasks') <> tasks')).
Proof.
  intros task_id now tasks t Hget Hpending t' tasks'.
  assert (Hfst : tasks' = dict_set task_id t' tasks).
  { unfold tasks'. now rewrite (complete_task_present _ _ _ Hget). }
  assert (Hget' : dict_get task_id tasks' = Some t').
  { rewrite Hfst, dict_get_set. now rewrite String.eqb_refl. }
  assert (Hagain : forall now2,
             complete_task task_id now2 tasks'
             = (dict_set task_id (completed_version now2 t) tasks',
                Returns (TaskDict (completed_version now2 t)))).
  { intros now2. now rewrite (complete_task_present _ now2 _ Hget'). }
  repeat split.
  - now rewrite (complete_task_present _ _ _ Hget).
  - exact Hget'.
  - rewrite Hfst. exact (dict_set_keys _ _ _ Hget).
  - intros k Hk. rewrite Hfst, dict_get_set.
    destruct (String.eqb_spec task_id k); congruence.
  - now rewrite Hagain.
  - rewrite Hagain. simpl. rewrite dict_get_set. now rewrite String.eqb_refl.
  - intros Hnow Heq. rewrite Hagain in Heq. simpl in Heq.
    assert (H2 : dict_get task_id (dict_set task_id (completed_version now2 t) tasks')
                 = Some (completed_version now2 t))
      by (rewrite dict_get_set; now rewrite String.eqb_refl).
    rewrite Heq, Hget' in H2. unfold t', completed_version in H2. congruence.
Qed.

Lemma C3_complete_task_pending_witness :
  snd (complete_task "task_2" "t4" three_tasks)
  = Returns (TaskDict (mkTask "task_2" "B" "" "2024-01-01" "low" "completed" "t2"
                              (Some "t4"))) /\
  snd (complete_task "task_2" "t5" three_tasks_done)
  = Returns (TaskDict (mkTask "task_2" "B" "" "2024-01-01" "low" "completed" "t2"
                              (Some "t5"))).
Proof.
  pose proof (C3_complete_task_pending "task_2" "t4" three_tasks
                (t := mkTask "task_2" "B" "" "2024-01-01" "low" "pending" "t2" None)
                eq_refl eq_refl) as H.
  split.
  - exact (proj1 H).
  - exact (proj1 (proj2 (proj2 (proj2 (proj2 (proj2 (proj2 (proj2 H)))))) "t5")).
Defined.

(** C4: [complete_task] on an id that is not a key of the store returns the
    value [{"error": "Task not found"}], as an ordinary result of the call
    and not as an exception, and the store is the one it was. *)
Theorem C4_complete_task_not_found :
  forall (task_id now : string) (tasks : Dict Task),
    ~ In task_id (dict_keys tasks) ->
    complete_task task_id now tasks
    = (tasks, Returns (ErrorDict "Task not found")) /\
    exec (CompleteTask task_id now) tasks
    = (tasks, Returns (RCompleted (ErrorDict "Task not found"))).
Proof.
  intros task_id now tasks Hnotin.
  apply dict_get_None_iff in Hnotin.
  pose proof (complete_task_absent task_id now tasks Hnotin) as H.
  split; [exact H|]. simpl. now rewrite H.
Qed.

Lemma C4_complete_task_not_found_witness :
  complete_task "task_99" "t1" three_tasks
  = (three_tasks, Returns (ErrorDict "Task not found")) /\
  exec (CompleteTask "task_99" "t1") three_tasks
  = (three_tasks, Returns (RCompleted (ErrorDict "Task not found"))).
Proof.
  apply (C4_complete_task_not_found "task_99" "t1" three_tasks).
  vm_compute. intros [H|[H|[H|[]]]]; discriminate H.
Defined.

(** ** Invariants of the store *)

(** C5: in every store reached by a sequence of calls, a task has
    [completed_at] set exactly when its [status] is completed; [add_task]
    creates tasks that are pending with no completion stamp, and every call
    keeps the property. *)
Theorem C5_completed_at_iff_completed :
  forall tasks : Dict Task,
    reachable tasks ->
    completion_consistent tasks /\
    (forall c, completion_consistent (fst (exec c tasks))) /\
    (forall title description due_date priority now,
        let task := snd (add_task title description due_date priority now tasks) in
        status task = "pending" /\ completed_at task = None).
Proof.
  assert (Hrun : forall cs s, completion_consistent s ->
                              completion_consistent (fst (run cs s))).
  { induction cs as [|c cs IH]; intros s Hs; simpl; trivial.
    pose proof (exec_completion_consistent c Hs) as H1.
    destruct (exec c s) as [s' r]. simpl in H1.
    pose proof (IH _ H1) as H2. now destruct (run cs s'). }
  intros tasks [cs <-].
  assert (Hc : completion_consistent (fst (run cs []))).
  { apply Hrun. intros k t []. }
  split; [exact Hc|]. split.
  - intros c. now apply exec_completion_consistent.
  - intros. split; reflexivity.
Qed.

Lemma C5_completed_at_iff_completed_witness :
  completion_consistent three_tasks_done.
Proof.
  apply (@C5_completed_at_iff_completed three_tasks_done).
  exists [AddTask "A" "" "2024-01-05" "high" "t1";
          AddTask "B" "" "2024-01-01" "low" "t2";
          AddTask "C" "" "2024-01-02" "high" "t3";
          CompleteTask "task_2" "t4"].
  reflexivity.
Defined.

(** C6: along any sequence of calls the ids handed out by [add_task] are
    pairwise different and the n-th created task gets the id formed from
    the count n (the number of records at the call, plus one); after every
    call the ids in the store are pairwise different, and the id the next
    [add_task] forms is not in the store. *)
Theorem C6_task_ids_unique :
  forall cs : list call,
    let tasks := fst (run cs []) in
    let added := created (snd (run cs [])) in
    map id added = map task_id_of_count (seq 1 (List.length added)) /\
    NoDup (map id added) /\
    NoDup (map id (dict_values tasks)) /\
    NoDup (dict_keys tasks) /\
    (forall title description due_date priority now,
        let task := snd (add_task title description due_date priority now tasks) in
        id task = task_id_of_count (List.length tasks + 1) /\
        ~ In (id task) (map id (dict_values tasks))).
Proof.
  intros cs tasks added.
  assert (Hinv : store_inv tasks) by (apply run_inv, store_inv_empty).
  assert (Hids : map id (dict_values tasks) = map id added).
  { rewrite (creation_view_id (dict_values tasks)), (creation_view_id added).
    unfold tasks, added. now rewrite (run_creation_view cs store_inv_empty). }
  assert (Hlen : List.length tasks = List.length added).
  { rewrite <- (length_map id added), <- Hids.
    unfold dict_values. now rewrite !length_map. }
  assert (Hkeys : map id added = map task_id_of_count (seq 1 (List.length added))).
  { rewrite <- Hids, (store_inv_ids Hinv), <- Hlen. apply (inv_keys Hinv). }
  repeat split.
  - exact Hkeys.
  - rewrite Hkeys. apply task_ids_NoDup.
  - rewrite Hids, Hkeys. apply task_ids_NoDup.
  - apply (store_inv_wf Hinv).
  - rewrite (store_inv_ids Hinv). apply dict_get_None_iff.
    apply (store_inv_fresh Hinv).
Qed.

(** ** What the tools show *)

(** C7: in a reachable store every entry of [recommended_tasks] describes
    a task whose status is pending at the time of the call, and the id of a
    completed task is not among the entries. *)
Theorem C7_recommendations_only_pending :
  forall (date_arg today : string) (tasks : Dict Task) (r : Recommendations),
    reachable tasks ->
    get_task_recommendations date_arg today tasks = Returns r ->
    (forall e, In e (recommended_tasks r) ->
               exists t, dict_get (r_task_id e) tasks = Some t /\
                         status t = "pending" /\ e = recommend t) /\
    (forall k t, dict_get k tasks = Some t -> status t = "completed" ->
                 ~ In k (map r_task_id (recommended_tasks r))).
Proof.
  intros date_arg today tasks r Hreach Hr.
  pose proof (reachable_inv Hreach) as Hinv.
  destruct (recommendations_returned _ _ _ Hr) as (l & Hl & ->).
  destruct (sorted_pending_spec _ (sorted_returns_valid _ Hl))
    as (l' & Hl' & Hperm & _).
  rewrite Hl in Hl'. injection Hl' as <-.
  assert (Hentries : forall e, In e (map recommend (firstn 5 l)) ->
            exists t, dict_get (r_task_id e) tasks = Some t /\
                      status t = "pending" /\ e = recommend t).
  { intros e He. apply in_map_iff in He. destruct He as [t [<- Ht]].
    apply in_firstn_in in Ht. apply (Permutation_in _ Hperm) in Ht.
    apply pending_tasks_In in Ht. destruct Ht as [[k Hin] Hst].
    exists t. repeat split; trivial. simpl.
    rewrite (inv_ids Hinv _ _ Hin).
    apply dict_get_unique; [now apply store_inv_wf|exact Hin]. }
  split; [exact Hentries|].
  intros k t Hget Hdone Hin. simpl in Hin.
  apply in_map_iff in Hin. destruct Hin as [e [<- He]].
  destruct (Hentries e He) as (t' & Hget' & Hpending & _).
  rewrite Hget in Hget'. injection Hget' as <-.
  rewrite Hdone in Hpending. discriminate.
Qed.

Lemma C7_recommendations_only_pending_witness :
  (exists t, dict_get "task_3" three_tasks_done = Some t /\
             status t = "pending" /\
             mkRecommendation "task_3" "C" "high" "2024-01-02"
                              "High priority task due on 2024-01-02"
             = recommend t) /\
  ~ In "task_2" ["task_3"; "task_1"].
Proof.
  pose proof (@C7_recommendations_only_pending
                "today" "2024-01-01" three_tasks_done
                (mkRecommendations "2024-01-01"
                   (map recommend
                      [mkTask "task_3" "C" "" "2024-01-02" "high" "pending" "t3" None;
                       mkTask "task_1" "A" "" "2024-01-05" "high" "pending" "t1" None])))
    as H.
  destruct H as [Hentries Hdone].
  - exists [AddTask "A" "" "2024-01-05" "high" "t1";
            AddTask "B" "" "2024-01-01" "low" "t2";
            AddTask "C" "" "2024-01-02" "high" "t3";
            CompleteTask "task_2" "t4"].
    reflexivity.
  - reflexivity.
  - split.
    + apply (Hentries (mkRecommendation "task_3" "C" "high" "2024-01-02"
                                        "High priority task due on 2024-01-02")).
      left. reflexivity.
    + apply (Hdone "task_2"
                   (mkTask "task_2" "B" "" "2024-01-01" "low" "completed" "t2" (Some "t4")));
        reflexivity.
Defined.

(** C8: after any sequence of calls, the tasks listed under pending
    together with those listed under completed are, as a set, the tasks
    listed under all; and the listing under all is the whole store: one
    record per [add_task] call so far, in the order of the calls, with the
    fields given at creation. *)
Theorem C8_get_tasks_partition :
  forall cs : list call,
    let tasks := fst (run cs []) in
    let added := created (snd (run cs [])) in
    (forall t, In t (get_tasks "pending" tasks ++ get_tasks "completed" tasks)%list
               <-> In t (get_tasks "all" tasks)) /\
    get_tasks "all" tasks = dict_values tasks /\
    List.length (get_tasks "all" tasks) = List.length added /\
    map creation_view (get_tasks "all" tasks) = map creation_view added.
Proof.
  intros cs tasks added.
  assert (Hinv : store_inv tasks) by (apply run_inv, store_inv_empty).
  assert (Hview : map creation_view (dict_values tasks) = map creation_view added).
  { unfold tasks, added. now rewrite (run_creation_view cs store_inv_empty). }
  repeat split.
  - intros Hin. apply in_app_or in Hin. unfold get_tasks in *. simpl in *.
    destruct Hin as [Hin|Hin]; apply filter_In in Hin; apply Hin.
  - intros Hin. apply in_or_app. unfold get_tasks in *. simpl in *.
    rewrite !filter_In, !String.eqb_eq.
    pose proof Hin as Hval. unfold dict_values in Hin. apply in_map_iff in Hin.
    destruct Hin as [[k t'] [Heq Hin']]. simpl in Heq. subst t'.
    destruct (inv_status Hinv _ _ Hin') as [[Hs _]|[Hs _]]; auto.
  - rewrite <- (length_map creation_view added), <- Hview. unfold get_tasks. simpl.
    now rewrite length_map.
  - exact Hview.
Qed.

(** C9: the [date] argument decides nothing but the [date] field of the
    result: two calls on the same store agree on [recommended_tasks] (or
    raise alike) whatever dates they are given and whatever the clock
    shows, and the [date] field is the argument, with "today" replaced by
    the current local date. *)
Theorem C9_date_only_echoed :
  forall (date1 date2 today1 today2 : string) (tasks : Dict Task),
    omap recommended_tasks (get_task_recommendations date1 today1 tasks)
    = omap recommended_tasks (get_task_recommendations date2 today2 tasks) /\
    omap date (get_task_recommendations date1 today1 tasks)
    = omap (fun _ => if date1 =? "today" then today1 else date1)
           (get_task_recommendations date1 today1 tasks).
Proof.
  intros date1 date2 today1 today2 tasks. unfold get_task_recommendations.
  destruct (sorted key_lt sort_key (pending_tasks tasks)) as [l|e]; split; reflexivity.
Qed.

(** C10: in a reachable store, a status argument other than all, pending
    and completed makes [get_tasks] return the empty list, as an ordinary
    result, since every stored status is pending or completed. *)
Theorem C10_get_tasks_unknown_status :
  forall (tasks : Dict Task) (status_arg : string),
    reachable tasks ->
    status_arg <> "all" -> status_arg <> "pending" -> status_arg <> "completed" ->
    get_tasks status_arg tasks = [] /\
    exec (GetTasks status_arg) tasks = (tasks, Returns (RTasks [])).
Proof.
  intros tasks s Hreach Hall Hpending Hcompleted.
  pose proof (reachable_inv Hreach) as Hinv.
  assert (H : get_tasks s tasks = []).
  { unfold get_tasks. apply String.eqb_neq in Hall. rewrite Hall.
    apply filter_none. intros t Ht.
    unfold dict_values in Ht. apply in_map_iff in Ht.
    destruct Ht as [[k t'] [Heq Hin]]. simpl in Heq. subst t'.
    apply String.eqb_neq.
    destruct (inv_status Hinv _ _ Hin) as [[Hs _]|[Hs _]]; congruence. }
  split; [exact H|]. simpl. now rewrite H.
Qed.

Lemma C10_get_tasks_unknown_status_witness :
  get_tasks "done" three_tasks_done = [] /\
  exec (GetTasks "done") three_tasks_done = (three_tasks_done, Returns (RTasks [])).
Proof.
  apply (@C10_get_tasks_unknown_status three_tasks_done "done").
  - exists [AddTask "A" "" "2024-01-05" "high" "t1";
            AddTask "B" "" "2024-01-01" "low" "t2";
            AddTask "C" "" "2024-01-02" "high" "t3";
            CompleteTask "task_2" "t4"].
    reflexivity.
  - discriminate.
  - discriminate.
  - discriminate.
Defined.

(** * Further properties of the four tools *)

(** ** Lists *)

Lemma filter_all {A : Type} (f : A -> bool) (l : list A) :
  (forall x, In x l -> f x = true) -> filter f l = l.
Proof.
  induction l as [|a l IH]; intros H; simpl; trivial.
  rewrite (H a) by now left. f_equal. apply IH. intros; apply H; now right.
Qed.

Lemma filter_comm {A : Type} (f g : A -> bool) (l : list A) :
  filter f (filter g l) = filter g (filter f l).
Proof.
  induction l as [|a l IH]; simpl; trivial.
  destruct (f a) eqn:Hf, (g a) eqn:Hg; simpl; rewrite ?Hf, ?Hg, IH; reflexivity.
Qed.

Lemma StronglySorted_filter {A : Type} (R : A -> A -> Prop) (f : A -> bool) l :
  StronglySorted R l -> StronglySorted R (filter f l).
Proof.
  induction 1 as [|a l Hs IH Ha]; simpl; [constructor|].
  destruct (f a); trivial. constructor; trivial.
  rewrite Forall_forall in *. intros x Hx. apply Ha.
  apply filter_In in Hx. tauto.
Qed.

Lemma StronglySorted_app_inv {A : Type} (R : A -> A -> Prop) (l1 l2 : list A) :
  StronglySorted R (l1 ++ l2)%list ->
  forall x y, In x l1 -> In y l2 -> R x y.
Proof.
  induction l1 as [|a l1 IH]; simpl; intros Hs x y Hx Hy; [easy|].
  inversion Hs as [|? ? Hs' Ha]; subst. destruct Hx as [->|Hx].
  - rewrite Forall_forall in Ha. apply Ha, in_or_app. now right.
  - now apply IH.
Qed.

Lemma filter_split_perm {A : Type} (f g : A -> bool) (l : list A) :
  (forall x, In x l -> g x = negb (f x)) ->
  Permutation (filter f l ++ filter g l)%list l.
Proof.
  induction l as [|a l IH]; intros H; simpl; [constructor|].
  rewrite (H a) by now left.
  assert (IH' : Permutation (filter f l ++ filter g l)%list l)
    by (apply IH; intros; apply H; now right).
  destruct (f a); simpl.
  - now constructor.
  - rewrite <- Permutation_middle. now constructor.
Qed.

Lemma NoDup_firstn {A : Type} (n : nat) : forall l : list A,
  NoDup l -> NoDup (firstn n l).
Proof.
  induction n as [|n IH]; intros [|a l] H; simpl; try constructor.
  - inversion H; subst. intros Hin. apply in_firstn_in in Hin. contradiction.
  - apply IH. now inversion H.
Qed.

Lemma NoDup_map_filter {A B : Type} (g : A -> B) (f : A -> bool) (l : list A) :
  NoDup (map g l) -> NoDup (map g (filter f l)).
Proof.
  induction l as [|a l IH]; simpl; intros H; [constructor|].
  inversion H as [|? ? Hnotin Hnd]; subst.
  destruct (f a); simpl; [constructor|]; auto.
  intros Hin. apply Hnotin. apply in_map_iff in Hin.
  destruct Hin as [x [Hx Hin]]. apply filter_In in Hin.
  apply in_map_iff. exists x. tauto.
Qed.

Lemma mapM_raises_inv {A B : Type} (f : A -> outcome B) (l : list A) e :
  mapM f l = Raises e -> exists x, In x l /\ f x = Raises e.
Proof.
  induction l as [|a l IH]; simpl; [discriminate|].
  destruct (f a) as [b|e'] eqn:Hfa; simpl.
  - destruct (mapM f l) as [bs|e'] eqn:Hm; simpl; [discriminate|].
    intros [= ->]. destruct (IH eq_refl) as [x [Hx Hfx]]. eauto.
  - intros [= ->]. eauto.
Qed.

(** ** Concrete stores used by the witnesses *)

Lemma three_tasks_reachable : reachable three_tasks.
Proof.
  exists [AddTask "A" "" "2024-01-05" "high" "t1";
          AddTask "B" "" "2024-01-01" "low" "t2";
          AddTask "C" "" "2024-01-02" "high" "t3"].
  reflexivity.
Defined.

Lemma three_tasks_done_reachable : reachable three_tasks_done.
Proof.
  exists [AddTask "A" "" "2024-01-05" "high" "t1";
          AddTask "B" "" "2024-01-01" "low" "t2";
          AddTask "C" "" "2024-01-02" "high" "t3";
          CompleteTask "task_2" "t4"].
  reflexivity.
Defined.

Lemma mixed_store_reachable : reachable mixed_store.
Proof.
  exists [AddTask "A" "" "2024-01-05" "high" "t1";
          AddTask "B" "" "2024-01-06" "Medium" "t2"].
  reflexivity.
Defined.

(** ** Creating a task *)

(** X1: in a reachable store [add_task] never overwrites: the id it forms
    was not a key before, the new record is found under it afterwards,
    every lookup of another key answers as before, and the store has one
    entry more. *)
Theorem X1_add_task_lookup :
  forall (tasks : Dict Task) (title description due_date priority now : string),
    reachable tasks ->
    let tasks' := fst (add_task title description due_date priority now tasks) in
    let task := snd (add_task title description due_date priority now tasks) in
    dict_get (id task) tasks = None /\
    dict_get (id task) tasks' = Some task /\
    (forall k, k <> id task -> dict_get k tasks' = dict_get k tasks) /\
    (forall k t, dict_get k tasks = Some t -> dict_get k tasks' = Some t) /\
    List.length tasks' = List.length tasks + 1.
Proof.
  intros tasks ti de du pr now Hreach tasks' task.
  pose proof (reachable_inv Hreach) as Hinv.
  pose proof (store_inv_fresh Hinv) as Hfresh.
  assert (Hset : forall k, dict_get k tasks'
                           = if id task =? k then Some task else dict_get k tasks).
  { intros k. unfold tasks', task, add_task. cbn [fst snd id]. apply dict_get_set. }
  repeat split.
  - exact Hfresh.
  - rewrite Hset. now rewrite String.eqb_refl.
  - intros k Hk. rewrite Hset. destruct (String.eqb_spec (id task) k); congruence.
  - intros k t Hget. rewrite Hset.
    destruct (String.eqb_spec (id task) k) as [<-|_]; trivial.
    unfold task, add_task in Hget. cbn [snd id] in Hget.
    unfold task_id_of_count in Hfresh. congruence.
  - unfold tasks'. rewrite (add_task_appends ti de du pr now Hinv).
    rewrite length_app. reflexivity.
Qed.

Lemma X1_add_task_lookup_witness :
  dict_get "task_4" three_tasks = None /\
  dict_get "task_4" (fst (add_task "D" "" "2024-02-01" "low" "t9" three_tasks))
  = Some (mkTask "task_4" "D" "" "2024-02-01" "low" "pending" "t9" None).
Proof.
  pose proof (@X1_add_task_lookup three_tasks "D" "" "2024-02-01" "low" "t9"
                                  three_tasks_reachable) as H.
  split; [exact (proj1 H)|exact (proj1 (proj2 H))].
Defined.

(** X2: in a reachable store the record [add_task] returns goes to the
    end of the full listing and of the pending listing, and the completed
    listing stays as it was. *)
Theorem X2_add_task_listings :
  forall (tasks : Dict Task) (title description due_date priority now : string),
    reachable tasks ->
    let tasks' := fst (add_task title description due_date priority now tasks) in
    let task := snd (add_task title description due_date priority now tasks) in
    get_tasks "all" tasks' = (get_tasks "all" tasks ++ [task])%list /\
    get_tasks "pending" tasks' = (get_tasks "pending" tasks ++ [task])%list /\
    get_tasks "completed" tasks' = get_tasks "completed" tasks.
Proof.
  intros tasks ti de du pr now Hreach tasks' task.
  pose proof (reachable_inv Hreach) as Hinv.
  assert (Hval : dict_values tasks' = (dict_values tasks ++ [task])%list).
  { unfold tasks'. rewrite (add_task_appends ti de du pr now Hinv).
    unfold dict_values. now rewrite map_app. }
  unfold get_tasks. cbn [String.eqb Ascii.eqb Bool.eqb]. rewrite Hval.
  repeat split.
  - rewrite filter_app. reflexivity.
  - rewrite filter_app. cbn. now rewrite app_nil_r.
Qed.

Lemma X2_add_task_listings_witness :
  get_tasks "pending" (fst (add_task "D" "" "2024-02-01" "low" "t9" three_tasks_done))
  = (get_tasks "pending" three_tasks_done
       ++ [mkTask "task_4" "D" "" "2024-02-01" "low" "pending" "t9" None])%list.
Proof.
  exact (proj1 (proj2 (@X2_add_task_listings three_tasks_done
                         "D" "" "2024-02-01" "low" "t9"
                         three_tasks_done_reachable))).
Defined.

(** ** What happens to a stored task *)

Lemma exec_keeps_entry (c : call) (tasks : Dict Task) k t :
  store_inv tasks -> dict_get k tasks = Some t ->
  exists t', dict_get k (fst (exec c tasks)) = Some t' /\
             (t' = t \/ exists now, t' = completed_version now t) /\
             (completes k c = false -> t' = t).
Proof.
  intros Hinv Hget. destruct c as [ti de du pr now|s|i now|dt today]; cbn [exec completes].
  - exists t. split; [|auto].
    unfold add_task. cbn [fst]. rewrite dict_get_set.
    destruct (String.eqb_spec ("task_" ++ str_of_nat (List.length tasks + 1)) k)
      as [<-|_]; trivial.
    pose proof (store_inv_fresh Hinv) as Hfresh.
    unfold task_id_of_count in Hfresh. congruence.
  - exists t. auto.
  - destruct (dict_get i tasks) as [u|] eqn:Hi.
    + rewrite (complete_task_present _ now _ Hi). cbn [fst]. rewrite dict_get_set.
      destruct (String.eqb_spec i k) as [->|Hne].
      * rewrite Hget in Hi. injection Hi as <-.
        exists (completed_version now t). repeat split; [eauto|discriminate].
      * exists t. auto.
    + rewrite (complete_task_absent _ now _ Hi). exists t. auto.
  - exists t. auto.
Qed.

Lemma run_keeps_entry (cs : list call) : forall (tasks : Dict Task) k t,
  store_inv tasks -> dict_get k tasks = Some t ->
  exists t', dict_get k (fst (run cs tasks)) = Some t' /\
             (t' = t \/ exists now, t' = completed_version now t) /\
             (forallb (fun c => negb (completes k c)) cs = true -> t' = t).
Proof.
  induction cs as [|c cs IH]; intros tasks k t Hinv Hget.
  - exists t. auto.
  - destruct (exec_keeps_entry c k Hinv Hget) as (t1 & Hget1 & Hev1 & Hsame1).
    pose proof (exec_inv c Hinv) as Hinv1.
    cbn [run forallb]. destruct (exec c tasks) as [tasks1 r]. cbn [fst] in *.
    destruct (IH tasks1 k t1 Hinv1 Hget1) as (t2 & Hget2 & Hev2 & Hsame2).
    destruct (run cs tasks1) as [tasks2 rs]. cbn [fst] in *.
    exists t2. repeat split; trivial.
    + destruct Hev2 as [->|[now2 ->]]; trivial.
      right. exists now2. destruct Hev1 as [->|[now1 ->]]; reflexivity.
    + intros Hall. apply andb_true_iff in Hall. destruct Hall as [Hc Hcs].
      apply negb_true_iff in Hc. rewrite (Hsame2 Hcs). now apply Hsame1.
Qed.

(** X3: a task in a reachable store stays under its key through every
    later sequence of calls; the record found there is the one it was or
    that record completed at some clock reading, so its id, title,
    description, due date, priority and creation stamp never change and a
    completed task never becomes pending again; without a [complete_task]
    call on its id the record is untouched. *)
Theorem X3_stored_task_persists :
  forall (cs : list call) (tasks : Dict Task) (k : string) (t : Task),
    reachable tasks ->
    dict_get k tasks = Some t ->
    exists t',
      dict_get k (fst (run cs tasks)) = Some t' /\
      (t' = t \/ exists now, t' = completed_version now t) /\
      creation_view t' = creation_view t /\
      (status t = "completed" -> status t' = "completed") /\
      (forallb (fun c => negb (completes k c)) cs = true -> t' = t).
Proof.
  intros cs tasks k t Hreach Hget.
  destruct (run_keeps_entry cs k (reachable_inv Hreach) Hget)
    as (t' & Hget' & Hev & Hsame).
  exists t'. repeat split; trivial.
  - destruct Hev as [->|[now ->]]; reflexivity.
  - intros Hdone. destruct Hev as [->|[now ->]]; trivial.
Qed.

Lemma X3_stored_task_persists_witness :
  exists t',
    dict_get "task_2"
             (fst (run [AddTask "D" "" "2024-02-01" "low" "t9";
                        CompleteTask "task_1" "t10";
                        GetTasks "all"] three_tasks_done)) = Some t' /\
    status t' = "completed".
Proof.
  destruct (@X3_stored_task_persists
              [AddTask "D" "" "2024-02-01" "low" "t9";
               CompleteTask "task_1" "t10"; GetTasks "all"]
              three_tasks_done "task_2"
              (mkTask "task_2" "B" "" "2024-01-01" "low" "completed" "t2" (Some "t4"))
              three_tasks_done_reachable eq_refl)
    as (t' & Hget & _ & _ & Hdone & _).
  exists t'. split; [exact Hget|exact (Hdone eq_refl)].
Defined.

(** X4: every id that [add_task] has handed out during a run is a key of
    the store at the end of the run, the record under it carries the
    fields the call returned, and [complete_task] on that id answers with
    the completed record, never with "Task not found". *)
Theorem X4_created_ids_stay_valid :
  forall (cs : list call) (t : Task) (now : string),
    In t (created (snd (run cs []))) ->
    exists u,
      dict_get (id t) (fst (run cs [])) = Some u /\
      creation_view u = creation_view t /\
      snd (complete_task (id t) now (fst (run cs [])))
      = Returns (TaskDict (completed_version now u)).
Proof.
  intros cs t now Hin.
  assert (Hinv : store_inv (fst (run cs []))) by (apply run_inv, store_inv_empty).
  assert (Hview : In (creation_view t)
                     (map creation_view (dict_values (fst (run cs []))))).
  { rewrite (run_creation_view cs store_inv_empty). simpl. now apply in_map. }
  apply in_map_iff in Hview. destruct Hview as [u [Hu Huin]].
  unfold dict_values in Huin. apply in_map_iff in Huin.
  destruct Huin as [[k u'] [Heq Hku]]. simpl in Heq. subst u'.
  assert (Hk : k = id t).
  { rewrite <- (inv_ids Hinv _ _ Hku).
    change (fst (fst (fst (fst (fst (creation_view u)))))
            = fst (fst (fst (fst (fst (creation_view t)))))).
    now rewrite Hu. }
  subst k.
  assert (Hget : dict_get (id t) (fst (run cs [])) = Some u)
    by (apply dict_get_unique; [now apply store_inv_wf|exact Hku]).
  exists u. repeat split; trivial.
  now rewrite (complete_task_present _ now _ Hget).
Qed.

Lemma X4_created_ids_stay_valid_witness :
  exists u,
    dict_get "task_1"
             (fst (run [AddTask "A" "" "2024-01-05" "high" "t1";
                        AddTask "B" "" "2024-01-06" "Medium" "t2"] [])) = Some u /\
    creation_view u
    = ("task_1", "A", "", "2024-01-05", "high", "t1") /\
    snd (complete_task "task_1" "t7"
           (fst (run [AddTask "A" "" "2024-01-05" "high" "t1";
                      AddTask "B" "" "2024-01-06" "Medium" "t2"] [])))
    = Returns (TaskDict (completed_version "t7" u)).
Proof.
  apply (@X4_created_ids_stay_valid
           [AddTask "A" "" "2024-01-05" "high" "t1";
            AddTask "B" "" "2024-01-06" "Medium" "t2"]
           (mkTask "task_1" "A" "" "2024-01-05" "high" "pending" "t1" None) "t7").
  left. reflexivity.
Defined.

(** ** Listings after a completion *)

Lemma pending_tasks_cons k (v : Task) (d : Dict Task) :
  pending_tasks ((k, v) :: d)
  = if status v =? "pending" then v :: pending_tasks d else pending_tasks d.
Proof. reflexivity. Qed.

Lemma pending_ids_in_keys (d : Dict Task) :
  (forall k t, In (k, t) d -> id t = k) ->
  forall t, In t (pending_tasks d) -> In (id t) (dict_keys d).
Proof.
  intros Hid t Ht. apply pending_tasks_In in Ht. destruct Ht as [[k Hin] _].
  rewrite (Hid _ _ Hin). unfold dict_keys. change k with (fst (k, t)).
  now apply in_map.
Qed.

Lemma pending_without_absent (d : Dict Task) k :
  (forall k' t, In (k', t) d -> id t = k') ->
  ~ In k (dict_keys d) ->
  filter (other_than k) (pending_tasks d) = pending_tasks d.
Proof.
  intros Hid Hk. apply filter_all. intros t Ht.
  unfold other_than. apply negb_true_iff, String.eqb_neq. intros <-.
  apply Hk. now apply pending_ids_in_keys.
Qed.

Lemma pending_dict_set (d : Dict Task) k t0 now :
  (forall k' t, In (k', t) d -> id t = k') ->
  dict_wf d ->
  dict_get k d = Some t0 ->
  pending_tasks (dict_set k (completed_version now t0) d)
  = filter (other_than k) (pending_tasks d).
Proof.
  unfold dict_wf. induction d as [|[k' v'] d IH]; intros Hid Hnd Hget;
    [discriminate|].
  cbn [dict_get dict_set] in *. inversion Hnd as [|? ? Hk' Hnd']; subst.
  assert (Hid' : forall k0 t, In (k0, t) d -> id t = k0)
    by (intros; apply Hid; now right).
  assert (Hv' : id v' = k') by (apply Hid; now left).
  destruct (String.eqb_spec k' k) as [->|Hne].
  - injection Hget as ->. rewrite !pending_tasks_cons. cbn [completed_version status].
    cbn [String.eqb Ascii.eqb Bool.eqb andb].
    assert (Hrest : filter (other_than k) (pending_tasks d) = pending_tasks d)
      by now apply pending_without_absent.
    assert (Hot : other_than k t0 = false)
      by (unfold other_than; now rewrite Hv', String.eqb_refl).
    destruct (status t0 =? "pending"); [|now rewrite Hrest].
    cbn [filter]. now rewrite Hot, Hrest.
  - rewrite !pending_tasks_cons. rewrite (IH Hid' Hnd' Hget).
    assert (Hot : other_than k v' = true).
    { unfold other_than. rewrite Hv'. apply negb_true_iff. now apply String.eqb_neq. }
    destruct (status v' =? "pending"); trivial.
    cbn [filter]. now rewrite Hot.
Qed.

Lemma pending_after_complete (tasks : Dict Task) k now :
  store_inv tasks ->
  pending_tasks (fst (complete_task k now tasks))
  = filter (other_than k) (pending_tasks tasks).
Proof.
  intros Hinv. destruct (dict_get k tasks) as [t|] eqn:Hget.
  - rewrite (complete_task_present _ now _ Hget). cbn [fst].
    apply pending_dict_set; trivial; [apply (inv_ids Hinv)|now apply store_inv_wf].
  - rewrite (complete_task_absent _ now _ Hget). cbn [fst]. symmetry.
    apply pending_without_absent; [apply (inv_ids Hinv)|].
    now apply dict_get_None_iff.
Qed.

(** X5: in a reachable store, after [complete_task] on any id the pending
    listing is the former pending listing without the task of that id, in
    the former order, and a task found under the id shows up in the
    completed listing as its completed record. *)
Theorem X5_complete_task_listings :
  forall (tasks : Dict Task) (task_id now : string),
    reachable tasks ->
    let tasks' := fst (complete_task task_id now tasks) in
    get_tasks "pending" tasks'
    = filter (other_than task_id) (get_tasks "pending" tasks) /\
    (forall t, In t (get_tasks "pending" tasks') -> id t <> task_id) /\
    (forall t, dict_get task_id tasks = Some t ->
               In (completed_version now t) (get_tasks "completed" tasks')).
Proof.
  intros tasks k now Hreach tasks'.
  pose proof (reachable_inv Hreach) as Hinv.
  assert (Hp : get_tasks "pending" tasks'
               = filter (other_than k) (get_tasks "pending" tasks))
    by (apply (pending_after_complete k now Hinv)).
  repeat split.
  - exact Hp.
  - intros t Ht. rewrite Hp in Ht. apply filter_In in Ht. destruct Ht as [_ Ht].
    unfold other_than in Ht. now apply negb_true_iff, String.eqb_neq in Ht.
  - intros t Hget. unfold tasks'. rewrite (complete_task_present _ now _ Hget).
    cbn [fst]. unfold get_tasks. cbn [String.eqb Ascii.eqb Bool.eqb].
    apply filter_In. split; [|reflexivity].
    unfold dict_values.
    change (completed_version now t) with (snd (k, completed_version now t)).
    apply in_map. apply dict_get_In. rewrite dict_get_set.
    now rewrite String.eqb_refl.
Qed.

Lemma X5_complete_task_listings_witness :
  get_tasks "pending" (fst (complete_task "task_1" "t6" three_tasks_done))
  = filter (other_than "task_1") (get_tasks "pending" three_tasks_done).
Proof.
  exact (proj1 (@X5_complete_task_listings three_tasks_done "task_1" "t6"
                  three_tasks_done_reachable)).
Defined.

(** X6: in a reachable store no task is listed twice or lost between the
    filtered listings: the pending listing followed by the completed
    listing is a rearrangement of the full listing, so their sizes add up
    to the size of the store. *)
Theorem X6_get_tasks_counts :
  forall tasks : Dict Task,
    reachable tasks ->
    Permutation (get_tasks "pending" tasks ++ get_tasks "completed" tasks)%list
                (get_tasks "all" tasks) /\
    List.length (get_tasks "pending" tasks) + List.length (get_tasks "completed" tasks)
    = List.length tasks.
Proof.
  intros tasks Hreach. pose proof (reachable_inv Hreach) as Hinv.
  assert (Hperm : Permutation
            (get_tasks "pending" tasks ++ get_tasks "completed" tasks)%list
            (get_tasks "all" tasks)).
  { unfold get_tasks. cbn [String.eqb Ascii.eqb Bool.eqb].
    apply filter_split_perm. intros t Ht.
    unfold dict_values in Ht. apply in_map_iff in Ht.
    destruct Ht as [[k t'] [Heq Hin]]. simpl in Heq. subst t'.
    destruct (inv_status Hinv _ _ Hin) as [[Hs _]|[Hs _]]; rewrite Hs; reflexivity. }
  split; [exact Hperm|].
  rewrite <- length_app, (Permutation_length Hperm).
  unfold get_tasks, dict_values. cbn [String.eqb Ascii.eqb Bool.eqb].
  apply length_map.
Qed.

Lemma X6_get_tasks_counts_witness :
  List.length (get_tasks "pending" three_tasks_done)
  + List.length (get_tasks "completed" three_tasks_done)
  = List.length three_tasks_done.
Proof.
  exact (proj2 (@X6_get_tasks_counts three_tasks_done three_tasks_done_reachable)).
Defined.

(** ** More on the recommendations *)

(** Everything known about a returned recommendation at once. *)
Lemma recommendations_returned_spec date_arg today (tasks : Dict Task) r :
  get_task_recommendations date_arg today tasks = Returns r ->
  exists sorted_tasks,
    sorted key_lt sort_key (pending_tasks tasks) = Returns sorted_tasks /\
    r = mkRecommendations (if date_arg =? "today" then today else date_arg)
                          (map recommend (firstn 5 sorted_tasks)) /\
    (forall t, In t (pending_tasks tasks) -> valid_priority (priority t) = true) /\
    Permutation sorted_tasks (pending_tasks tasks) /\
    StronglySorted task_precedes sorted_tasks.
Proof.
  intros Hr. destruct (recommendations_returned _ _ _ Hr) as (l & Hl & ->).
  pose proof (sorted_returns_valid _ Hl) as Hvalid.
  destruct (sorted_pending_spec _ Hvalid) as (l' & Hl' & Hperm & Hord & _).
  rewrite Hl in Hl'. injection Hl' as <-.
  exists l. repeat split; trivial.
Qed.

(** X7: a returned recommendation lists exactly five tasks when more than
    five are pending, and every pending task otherwise. *)
Theorem X7_recommendations_length :
  forall (date_arg today : string) (tasks : Dict Task) (r : Recommendations),
    get_task_recommendations date_arg today tasks = Returns r ->
    List.length (recommended_tasks r)
    = Nat.min 5 (List.length (get_tasks "pending" tasks)).
Proof.
  intros date_arg today tasks r Hr.
  destruct (recommendations_returned_spec _ _ _ Hr)
    as (l & _ & -> & _ & Hperm & _).
  cbn [recommended_tasks]. rewrite length_map, length_firstn.
  now rewrite (Permutation_length Hperm).
Qed.

Lemma X7_recommendations_length_witness :
  List.length
    (map recommend
         [mkTask "task_3" "C" "" "2024-01-02" "high" "pending" "t3" None;
          mkTask "task_1" "A" "" "2024-01-05" "high" "pending" "t1" None])
  = Nat.min 5 (List.length (get_tasks "pending" three_tasks_done)).
Proof.
  apply (@X7_recommendations_length "today" "2024-01-01" three_tasks_done
           (mkRecommendations "2024-01-01"
              (map recommend
                 [mkTask "task_3" "C" "" "2024-01-02" "high" "pending" "t3" None;
                  mkTask "task_1" "A" "" "2024-01-05" "high" "pending" "t1" None]))).
  reflexivity.
Defined.

(** X8: the recommended tasks are the most urgent ones: a pending task
    is left out of a returned recommendation only when the result has its
    five entries, and then it comes, in the order of rank and due date,
    after every one of them. *)
Theorem X8_recommendations_are_the_top :
  forall (date_arg today : string) (tasks : Dict Task) (r : Recommendations),
    get_task_recommendations date_arg today tasks = Returns r ->
    forall t, In t (get_tasks "pending" tasks) ->
      In (recommend t) (recommended_tasks r) \/
      (List.length (recommended_tasks r) = 5 /\
       forall e, In e (recommended_tasks r) -> rec_precedes e (recommend t)).
Proof.
  intros date_arg today tasks r Hr t Ht.
  destruct (recommendations_returned_spec _ _ _ Hr)
    as (l & _ & -> & _ & Hperm & Hord).
  cbn [recommended_tasks].
  apply (Permutation_in _ (Permutation_sym Hperm)) in Ht.
  rewrite <- (firstn_skipn 5 l) in Ht, Hord.
  apply in_app_or in Ht. destruct Ht as [Ht|Ht].
  - left. now apply in_map.
  - right. split.
    + rewrite length_map, length_firstn. apply Nat.min_l.
      destruct (Nat.le_gt_cases 5 (List.length l)) as [Hle|Hlt]; trivial.
      rewrite skipn_all2 in Ht by lia. destruct Ht.
    + intros e He. apply in_map_iff in He. destruct He as [t' [<- Ht']].
      exact (StronglySorted_app_inv _ _ Hord _ _ Ht' Ht).
Qed.

Lemma X8_recommendations_are_the_top_witness :
  ~ In (recommend (mkTask "task_6" "F" "" "2024-01-09" "low" "pending" "t6" None))
       (map recommend seven_tasks_top5) /\
  List.length (map recommend seven_tasks_top5) = 5 /\
  (forall e,
      In e (map recommend seven_tasks_top5) ->
      rec_precedes e
        (recommend (mkTask "task_6" "F" "" "2024-01-09" "low" "pending" "t6" None))).
Proof.
  assert (Hout : ~ In (recommend (mkTask "task_6" "F" "" "2024-01-09" "low"
                                         "pending" "t6" None))
                      (map recommend seven_tasks_top5)).
  { cbv. intros [H|[H|[H|[H|[H|[]]]]]]; discriminate H. }
  split; [exact Hout|].
  destruct (@X8_recommendations_are_the_top "today" "2024-01-01" seven_tasks
              (mkRecommendations "2024-01-01" (map recommend seven_tasks_top5))
              eq_refl
              (mkTask "task_6" "F" "" "2024-01-09" "low" "pending" "t6" None))
    as [Hin|Hafter].
  - cbv. do 5 right. left. reflexivity.
  - exfalso. exact (Hout Hin).
  - exact Hafter.
Defined.

(** X9: in a returned recommendation every entry has a priority among
    high, medium, low and its reason names that very tier, capitalised,
    with the entry's due date: the fall-through to the "Low" wording is
    taken by low-priority tasks only. *)
Theorem X9_reason_names_the_tier :
  forall (date_arg today : string) (tasks : Dict Task) (r : Recommendations),
    get_task_recommendations date_arg today tasks = Returns r ->
    forall e, In e (recommended_tasks r) ->
      valid_priority (r_priority e) = true /\
      r_reason e = reason_pattern (r_priority e) (r_due_date e).
Proof.
  intros date_arg today tasks r Hr e He.
  destruct (recommendations_returned_spec _ _ _ Hr)
    as (l & _ & -> & Hvalid & Hperm & _).
  cbn [recommended_tasks] in He.
  apply in_map_iff in He. destruct He as [t [<- Ht]].
  apply in_firstn_in in Ht. apply (Permutation_in _ Hperm) in Ht.
  specialize (Hvalid t Ht). split; [exact Hvalid|].
  cbn [recommend r_reason r_priority r_due_date]. unfold reason.
  apply valid_priority_cases in Hvalid.
  destruct Hvalid as [ -> | [ -> | -> ] ]; reflexivity.
Qed.

Lemma X9_reason_names_the_tier_witness :
  valid_priority "high" = true /\
  "High priority task due on 2024-01-02" = reason_pattern "high" "2024-01-02".
Proof.
  apply (@X9_reason_names_the_tier "today" "2024-01-01" three_tasks_done
           (mkRecommendations "2024-01-01"
              (map recommend
                 [mkTask "task_3" "C" "" "2024-01-02" "high" "pending" "t3" None;
                  mkTask "task_1" "A" "" "2024-01-05" "high" "pending" "t1" None]))
           eq_refl
           (recommend (mkTask "task_3" "C" "" "2024-01-02" "high" "pending" "t3" None))).
  left. reflexivity.
Defined.

(** X10: in a reachable store no task is recommended twice: the task ids
    of the entries of a returned recommendation are pairwise different. *)
Theorem X10_recommendations_distinct :
  forall (date_arg today : string) (tasks : Dict Task) (r : Recommendations),
    reachable tasks ->
    get_task_recommendations date_arg today tasks = Returns r ->
    NoDup (map r_task_id (recommended_tasks r)).
Proof.
  intros date_arg today tasks r Hreach Hr.
  pose proof (reachable_inv Hreach) as Hinv.
  destruct (recommendations_returned_spec _ _ _ Hr)
    as (l & _ & -> & _ & Hperm & _).
  cbn [recommended_tasks]. rewrite map_map. cbn [recommend r_task_id].
  rewrite <- firstn_map. apply NoDup_firstn.
  apply (Permutation_NoDup (Permutation_map id (Permutation_sym Hperm))).
  unfold pending_tasks. apply NoDup_map_filter.
  rewrite (store_inv_ids Hinv). now apply store_inv_wf.
Qed.

Lemma X10_recommendations_distinct_witness :
  NoDup ["task_3"; "task_1"].
Proof.
  apply (@X10_recommendations_distinct "today" "2024-01-01" three_tasks_done
           (mkRecommendations "2024-01-01"
              (map recommend
                 [mkTask "task_3" "C" "" "2024-01-02" "high" "pending" "t3" None;
                  mkTask "task_1" "A" "" "2024-01-05" "high" "pending" "t1" None]))
           three_tasks_done_reachable eq_refl).
Defined.

(** ** Recommendations across calls *)

Lemma sorted_pending_filter (f : Task -> bool) (l out out' : list Task) :
  sorted key_lt sort_key l = Returns out ->
  sorted key_lt sort_key (filter f l) = Returns out' ->
  out' = filter f out.
Proof.
  intros Hout Hout'.
  pose proof (sorted_returns_valid _ Hout) as Hvalid.
  destruct (sorted_pending_spec _ Hvalid) as (o & Ho & _ & Hord & Hstable).
  rewrite Hout in Ho. injection Ho as <-.
  destruct (sorted_pending_spec _ (sorted_returns_valid _ Hout'))
    as (o' & Ho' & _ & Hord' & Hstable').
  rewrite Hout' in Ho'. injection Ho' as <-.
  apply sorted_pending_unique; trivial.
  - now apply StronglySorted_filter.
  - intros t0. rewrite Hstable', (filter_comm (same_key t0) f out), Hstable.
    apply filter_comm.
Qed.

(** X11: in a reachable store, completing a task takes it out of the
    order the recommendations are drawn from and leaves the other pending
    tasks in their relative order: the next recommendation is the first
    five of the former sorted list without that task. *)
Theorem X11_complete_then_recommend :
  forall (date_arg today task_id now : string) (tasks : Dict Task)
         (r : Recommendations),
    reachable tasks ->
    get_task_recommendations date_arg today tasks = Returns r ->
    exists sorted_tasks,
      sorted key_lt sort_key (pending_tasks tasks) = Returns sorted_tasks /\
      recommended_tasks r = map recommend (firstn 5 sorted_tasks) /\
      get_task_recommendations date_arg today (fst (complete_task task_id now tasks))
      = Returns (mkRecommendations (date r)
                   (map recommend
                        (firstn 5 (filter (other_than task_id) sorted_tasks)))).
Proof.
  intros date_arg today k now tasks r Hreach Hr.
  pose proof (reachable_inv Hreach) as Hinv.
  destruct (recommendations_returned_spec _ _ _ Hr)
    as (l & Hl & -> & Hvalid & _ & _).
  exists l. repeat split; trivial.
  unfold get_task_recommendations. rewrite (pending_after_complete k now Hinv).
  destruct (@sorted_pending_spec (filter (other_than k) (pending_tasks tasks)))
    as (l' & Hl' & _).
  { intros t Ht. apply filter_In in Ht. now apply Hvalid. }
  rewrite Hl'. rewrite (@sorted_pending_filter _ _ _ _ Hl Hl'). reflexivity.
Qed.

Lemma X11_complete_then_recommend_witness :
  exists sorted_tasks,
    sorted key_lt sort_key (pending_tasks three_tasks) = Returns sorted_tasks /\
    map recommend
        [mkTask "task_3" "C" "" "2024-01-02" "high" "pending" "t3" None;
         mkTask "task_1" "A" "" "2024-01-05" "high" "pending" "t1" None;
         mkTask "task_2" "B" "" "2024-01-01" "low" "pending" "t2" None]
    = map recommend (firstn 5 sorted_tasks) /\
    get_task_recommendations "today" "2024-01-01"
                             (fst (complete_task "task_3" "t8" three_tasks))
    = Returns (mkRecommendations "2024-01-01"
                 (map recommend
                      (firstn 5 (filter (other_than "task_3") sorted_tasks)))).
Proof.
  apply (@X11_complete_then_recommend "today" "2024-01-01" "task_3" "t8" three_tasks
           (mkRecommendations "2024-01-01"
              (map recommend
                 [mkTask "task_3" "C" "" "2024-01-02" "high" "pending" "t3" None;
                  mkTask "task_1" "A" "" "2024-01-05" "high" "pending" "t1" None;
                  mkTask "task_2" "B" "" "2024-01-01" "low" "pending" "t2" None]))
           three_tasks_reachable eq_refl).
Defined.

Lemma recommendations_raise_invalid date_arg today (tasks : Dict Task) t :
  In t (pending_tasks tasks) ->
  valid_priority (priority t) = false ->
  exists p, get_task_recommendations date_arg today tasks = Raises (KeyError p) /\
            valid_priority p = false.
Proof.
  intros Ht Hbad. unfold get_task_recommendations.
  destruct (sorted key_lt sort_key (pending_tasks tasks)) as [l|e] eqn:Hs.
  - rewrite (sorted_returns_valid _ Hs t Ht) in Hbad. discriminate.
  - unfold sorted in Hs.
    destruct (mapM _ (pending_tasks tasks)) as [dl|e'] eqn:Hm; [discriminate|].
    cbn [bind] in Hs. injection Hs as ->.
    destruct (mapM_raises_inv _ _ Hm) as (x & _ & Hx).
    destruct (valid_priority (priority x)) eqn:Hv.
    + rewrite (sort_key_valid _ Hv) in Hx. discriminate.
    + rewrite (sort_key_invalid _ Hv) in Hx. cbn [bind] in Hx.
      injection Hx as <-. exists (priority x). split; [reflexivity|exact Hv].
Qed.

(** X12: a pending task whose priority is outside high, medium, low
    disables the recommendations of a reachable store for good: whatever
    calls follow, [get_task_recommendations] raises [KeyError] on a
    priority outside the table for as long as no [complete_task] call
    names that task. *)
Theorem X12_malformed_task_blocks :
  forall (cs : list call) (date_arg today k : string) (tasks : Dict Task) (t : Task),
    reachable tasks ->
    dict_get k tasks = Some t ->
    status t = "pending" ->
    valid_priority (priority t) = false ->
    forallb (fun c => negb (completes k c)) cs = true ->
    exists p,
      get_task_recommendations date_arg today (fst (run cs tasks))
      = Raises (KeyError p) /\
      valid_priority p = false.
Proof.
  intros cs date_arg today k tasks t Hreach Hget Hpending Hbad Hcs.
  destruct (run_keeps_entry cs k (reachable_inv Hreach) Hget)
    as (t' & Hget' & _ & Hsame).
  rewrite (Hsame Hcs) in Hget'.
  apply recommendations_raise_invalid with (t := t); trivial.
  apply pending_tasks_In. split; [|exact Hpending].
  exists k. now apply dict_get_In.
Qed.

Lemma X12_malformed_task_blocks_witness :
  exists p,
    get_task_recommendations "today" "2024-01-01"
      (fst (run [AddTask "C" "" "2024-01-02" "low" "t3";
                 CompleteTask "task_1" "t4";
                 GetTaskRecommendations "today" "2024-01-01"] mixed_store))
    = Raises (KeyError p) /\
    valid_priority p = false.
Proof.
  apply (@X12_malformed_task_blocks
           [AddTask "C" "" "2024-01-02" "low" "t3";
            CompleteTask "task_1" "t4";
            GetTaskRecommendations "today" "2024-01-01"]
           "today" "2024-01-01" "task_2" mixed_store
           (mkTask "task_2" "B" "" "2024-01-06" "Medium" "pending" "t2" None)
           mixed_store_reachable);
    reflexivity.
Defined.

(** X13: completing the offending task repairs the recommendations: in a
    reachable store where every pending task with a priority outside high,
    medium, low has the id [task_id], [get_task_recommendations] returns a
    result after [complete_task] on that id. *)
Theorem X13_completing_malformed_task_repairs :
  forall (date_arg today task_id now : string) (tasks : Dict Task),
    reachable tasks ->
    (forall t, In t (pending_tasks tasks) ->
               valid_priority (priority t) = false -> id t = task_id) ->
    exists r,
      get_task_recommendations date_arg today (fst (complete_task task_id now tasks))
      = Returns r.
Proof.
  intros date_arg today k now tasks Hreach Honly.
  pose proof (reachable_inv Hreach) as Hinv.
  unfold get_task_recommendations. rewrite (pending_after_complete k now Hinv).
  destruct (@sorted_pending_spec (filter (other_than k) (pending_tasks tasks)))
    as (l & Hl & _).
  - intros t Ht. apply filter_In in Ht. destruct Ht as [Ht Hother].
    destruct (valid_priority (priority t)) eqn:Hv; trivial.
    unfold other_than in Hother. rewrite (Honly t Ht Hv), String.eqb_refl in Hother.
    discriminate.
  - rewrite Hl. cbn [bind]. eauto.
Qed.

Lemma X13_completing_malformed_task_repairs_witness :
  exists r,
    get_task_recommendations "today" "2024-01-01"
                             (fst (complete_task "task_2" "t5" mixed_store))
    = Returns r.
Proof.
  apply (@X13_completing_malformed_task_repairs
           "today" "2024-01-01" "task_2" "t5" mixed_store mixed_store_reachable).
  intros t Ht. vm_compute in Ht. destruct Ht as [<-|[<-|[]]].
  - intros H. vm_compute in H. discriminate H.
  - reflexivity.
Defined.

Lemma pending_after_add ti de du pr now (tasks : Dict Task) :
  store_inv tasks ->
  pending_tasks (fst (add_task ti de du pr now tasks))
  = (pending_tasks tasks ++ [snd (add_task ti de du pr now tasks)])%list.
Proof.
  intros Hinv. rewrite (add_task_appends ti de du pr now Hinv).
  unfold pending_tasks, dict_values. rewrite map_app, filter_app. reflexivity.
Qed.

(** X14: in a reachable store whose recommendations work, adding a task
    with a priority among high, medium, low keeps them working and does
    not reorder the tasks that were there: the new task is in the sorted
    list of pending tasks the next recommendation is cut from, and that
    list without the new task is the sorted list of the pending tasks
    before the call. *)
Theorem X14_add_then_recommend :
  forall (date_arg today title description due_date priority now : string)
         (tasks : Dict Task) (r : Recommendations),
    reachable tasks ->
    valid_priority priority = true ->
    get_task_recommendations date_arg today tasks = Returns r ->
    let tasks' := fst (add_task title description due_date priority now tasks) in
    let task := snd (add_task title description due_date priority now tasks) in
    exists sorted_tasks sorted_tasks',
      sorted key_lt sort_key (pending_tasks tasks) = Returns sorted_tasks /\
      sorted key_lt sort_key (pending_tasks tasks') = Returns sorted_tasks' /\
      recommended_tasks r = map recommend (firstn 5 sorted_tasks) /\
      get_task_recommendations date_arg today tasks'
      = Returns (mkRecommendations (date r)
                                   (map recommend (firstn 5 sorted_tasks'))) /\
      In task sorted_tasks' /\
      filter (other_than (id task)) sorted_tasks' = sorted_tasks.
Proof.
  intros date_arg today ti de du pr now tasks r Hreach Hpr Hr tasks' task.
  pose proof (reachable_inv Hreach) as Hinv.
  destruct (recommendations_returned_spec _ _ _ Hr)
    as (l & Hl & -> & Hvalid & _ & _).
  assert (Hp : pending_tasks tasks' = (pending_tasks tasks ++ [task])%list)
    by (apply (pending_after_add ti de du pr now Hinv)).
  destruct (@sorted_pending_spec (pending_tasks tasks'))
    as (l' & Hl' & Hperm' & _).
  { rewrite Hp. intros t Ht. apply in_app_or in Ht.
    destruct Ht as [Ht|[<-|[]]]; [now apply Hvalid|exact Hpr]. }
  assert (Hfilter : filter (other_than (id task)) (pending_tasks tasks')
                    = pending_tasks tasks).
  { rewrite Hp, filter_app.
    rewrite pending_without_absent;
      [|apply (inv_ids Hinv)
       |apply dict_get_None_iff; apply (store_inv_fresh Hinv)].
    cbn [filter]. unfold other_than. rewrite String.eqb_refl. cbn [negb].
    apply app_nil_r. }
  exists l, l'. split; [exact Hl|]. split; [exact Hl'|]. repeat split.
  - unfold get_task_recommendations. now rewrite Hl'.
  - apply (Permutation_in _ (Permutation_sym Hperm')). rewrite Hp.
    apply in_or_app. right. now left.
  - symmetry. apply (@sorted_pending_filter _ (pending_tasks tasks') l' l); trivial.
    now rewrite Hfilter.
Qed.

Lemma X14_add_then_recommend_witness :
  exists sorted_tasks sorted_tasks',
    sorted key_lt sort_key (pending_tasks seven_tasks) = Returns sorted_tasks /\
    sorted key_lt sort_key
           (pending_tasks (fst (add_task "H" "" "2024-01-03" "high" "t9" seven_tasks)))
    = Returns sorted_tasks' /\
    map recommend seven_tasks_top5 = map recommend (firstn 5 sorted_tasks) /\
    get_task_recommendations "today" "2024-01-01"
      (fst (add_task "H" "" "2024-01-03" "high" "t9" seven_tasks))
    = Returns (mkRecommendations "2024-01-01"
                                 (map recommend (firstn 5 sorted_tasks'))) /\
    In (mkTask "task_8" "H" "" "2024-01-03" "high" "pending" "t9" None)
       sorted_tasks' /\
    filter (other_than "task_8") sorted_tasks' = sorted_tasks.
Proof.
  apply (@X14_add_then_recommend "today" "2024-01-01" "H" "" "2024-01-03" "high" "t9"
           seven_tasks
           (mkRecommendations "2024-01-01" (map recommend seven_tasks_top5))).
  - exists [AddTask "A" "" "2024-01-05" "high" "t1";
            AddTask "B" "" "2024-01-01" "low" "t2";
            AddTask "C" "" "2024-01-02" "high" "t3";
            AddTask "D" "" "2024-01-03" "medium" "t4";
            AddTask "E" "" "2024-01-01" "medium" "t5";
            AddTask "F" "" "2024-01-09" "low" "t6";
            AddTask "G" "" "2024-01-05" "high" "t7"].
    reflexivity.
  - reflexivity.
  - reflexivity.
Defined.
